(** * Schema-less protobuf decoder: a shallow embedding of
      [odlh_protobuf_decode_.py] and the properties of its decoding core.

    Python integers are unbounded, so every integer of the program is a [Z];
    a [bytes] object is a [list byte]; a raised exception is the [Raise]
    branch of the [res] type. *)

From Stdlib Require Import String Ascii.
From Stdlib Require Import ZArith List Bool Lia.
From Stdlib Require Import Strings.Byte.
From Stdlib Require Import Floats.SpecFloat.
From Stdlib Require Import DecimalString.
Set Warnings "-register-all".
Import ListNotations.
Local Open Scope Z_scope.

(** ** Exceptions and the error monad *)

(** The exceptions the program can raise.  [IndexError] comes from indexing a
    [bytes] object, [StructError] from the [struct] module,
    [ValueError_wire_type] from [decode_field], [ValueError_bytes_left] from
    [_check_byte], [ValueError_unpack] from a tuple assignment whose arity is
    wrong, and [UnicodeDecodeError] from [bytes.decode].  [BudgetExhausted]
    is the only one that is not a Python exception: the recursive definitions
    below carry a step budget, and [decode_protobuf_budget] shows that it is
    never reached. *)
Inductive exn : Type :=
| IndexError
| StructError
| UnicodeDecodeError
| ValueError_wire_type (wire_type : Z)
| ValueError_bytes_left (requested left : Z)
| ValueError_unpack (expected : nat)
| BudgetExhausted.

Inductive res (A : Type) : Type :=
| Ok (a : A)
| Raise (e : exn).
Arguments Ok {A} a.
Arguments Raise {A} e.

Definition bind {A B : Type} (m : res A) (k : A -> res B) : res B :=
  match m with
  | Ok a => k a
  | Raise e => Raise e
  end.

Notation "x <- m ;; k" := (bind m (fun x => k))
  (at level 61, m at next level, right associativity).
Notation "' p <- m ;; k" := (bind m (fun v => let p := v in k))
  (at level 61, p pattern, m at next level, right associativity).

(** ** Python's [bytes] *)

Definition bytes := list byte.

Definition byte_val (b : byte) : Z := Z.of_N (Byte.to_N b).

Definition len (buffer : bytes) : Z := Z.of_nat (length buffer).

(** [buffer[i]]: a negative index counts from the end, an index outside
    [-len, len) raises [IndexError]. *)
Definition getitem (buffer : bytes) (i : Z) : res Z :=
  let j := if i <? 0 then i + len buffer else i in
  if (j <? 0) || (len buffer <=? j) then Raise IndexError
  else match nth_error buffer (Z.to_nat j) with
       | Some b => Ok (byte_val b)
       | None => Raise IndexError
       end.

(** How a slice bound is clamped: a negative bound counts from the end and
    stops at 0, a positive one stops at the length. *)
Definition clamp (n i : Z) : Z :=
  if i <? 0 then Z.max 0 (i + n) else Z.min i n.

(** [buffer[a:b]]: never raises, the bounds are clamped. *)
Definition slice (buffer : bytes) (a b : Z) : bytes :=
  let a' := clamp (len buffer) a in
  let b' := clamp (len buffer) b in
  firstn (Z.to_nat (b' - a')) (skipn (Z.to_nat a') buffer).

(** ** The [struct] module *)

Fixpoint le_to_Z (bs : bytes) : Z :=
  match bs with
  | [] => 0
  | b :: rest => byte_val b + 256 * le_to_Z rest
  end.

Definition be_to_Z (bs : bytes) : Z := le_to_Z (rev bs).

Definition byte_of_Z (z : Z) : byte :=
  match Byte.of_N (Z.to_N (z mod 256)) with
  | Some b => b
  | None => x00
  end.

Fixpoint Z_to_le (n : nat) (z : Z) : bytes :=
  match n with
  | O => []
  | S n' => byte_of_Z z :: Z_to_le n' (z / 256)
  end.

(** The [size] bytes that [struct.unpack_from(fmt, buffer, offset)] reads.  A
    negative offset counts from the end; too few bytes raise [struct.error]. *)
Definition unpack_from_bytes (size : nat) (buffer : bytes) (offset : Z)
  : res bytes :=
  let off := if offset <? 0 then offset + len buffer else offset in
  if off <? 0 then Raise StructError
  else if len buffer - off <? Z.of_nat size then Raise StructError
  else Ok (firstn size (skipn (Z.to_nat off) buffer)).

(** [struct.unpack_from('<Q', buffer, offset)[0]] *)
Definition unpack_from_lt_Q (buffer : bytes) (offset : Z) : res Z :=
  bs <- unpack_from_bytes 8 buffer offset ;; Ok (le_to_Z bs).

(** [struct.unpack_from('<I', buffer, offset)[0]] *)
Definition unpack_from_lt_I (buffer : bytes) (offset : Z) : res Z :=
  bs <- unpack_from_bytes 4 buffer offset ;; Ok (le_to_Z bs).

(** [struct.unpack_from('>I', buffer, offset)[0]] *)
Definition unpack_from_gt_I (buffer : bytes) (offset : Z) : res Z :=
  bs <- unpack_from_bytes 4 buffer offset ;; Ok (be_to_Z bs).

(** [struct.pack('<I', v)] and [struct.pack('<Q', v)]: an argument outside the
    unsigned range raises [struct.error]. *)
Definition pack_unsigned (size : nat) (v : Z) : res bytes :=
  if (v <? 0) || (2 ^ (8 * Z.of_nat size) <=? v) then Raise StructError
  else Ok (Z_to_le size v).

Definition pack_lt_I : Z -> res bytes := pack_unsigned 4.
Definition pack_lt_Q : Z -> res bytes := pack_unsigned 8.

(** [struct.unpack('<i', bs)[0]] and [struct.unpack('<q', bs)[0]]: the bytes
    read as a signed little-endian integer; a wrong size raises. *)
Definition unpack_signed (size : nat) (bs : bytes) : res Z :=
  if negb (Nat.eqb (length bs) size) then Raise StructError
  else
    let u := le_to_Z bs in
    Ok (if 2 ^ (8 * Z.of_nat size - 1) <=? u
        then u - 2 ^ (8 * Z.of_nat size) else u).

Definition unpack_lt_i : bytes -> res Z := unpack_signed 4.
Definition unpack_lt_q : bytes -> res Z := unpack_signed 8.

(** The number an IEEE-754 bit pattern with [mw] mantissa bits and [ew]
    exponent bits denotes. *)
Definition ieee_of_bits (mw ew : Z) (bits : Z) : spec_float :=
  let m := bits mod 2 ^ mw in
  let e := (bits / 2 ^ mw) mod 2 ^ ew in
  let s := Z.testbit bits (mw + ew) in
  let bias := 2 ^ (ew - 1) - 1 in
  if e =? 0 then
    match m with
    | Zpos p => S754_finite s p (1 - bias - mw)
    | _ => S754_zero s
    end
  else if e =? 2 ^ ew - 1 then
    if m =? 0 then S754_infinity s else S754_nan
  else
    match 2 ^ mw + m with
    | Zpos p => S754_finite s p (e - bias - mw)
    | _ => S754_nan
    end.

(** [struct.unpack('<f', bs)[0]] and [struct.unpack('<d', bs)[0]] *)
Definition unpack_lt_f (bs : bytes) : res spec_float :=
  if negb (Nat.eqb (length bs) 4) then Raise StructError
  else Ok (ieee_of_bits 23 8 (le_to_Z bs)).

Definition unpack_lt_d (bs : bytes) : res spec_float :=
  if negb (Nat.eqb (length bs) 8) then Raise StructError
  else Ok (ieee_of_bits 52 11 (le_to_Z bs)).

(** ** [bytes.decode('utf-8')] *)

(** A Python [str] is a sequence of code points. *)
Definition pystr := list Z.

Definition in_range (lo hi x : Z) : bool := (lo <=? x) && (x <=? hi).

Definition is_cont (b : byte) : bool := in_range 0x80 0xBF (byte_val b).

Definition cont_bits (b : byte) : Z := Z.land (byte_val b) 0x3F.

(** The strict decoder: shortest form only, no surrogates, nothing above
    U+10FFFF. *)
Fixpoint utf8_decode (bs : bytes) : option pystr :=
  match bs with
  | [] => Some []
  | b0 :: r0 =>
    let x0 := byte_val b0 in
    if x0 <? 0x80 then option_map (cons x0) (utf8_decode r0)
    else if in_range 0xC2 0xDF x0 then
      match r0 with
      | b1 :: r1 =>
        if is_cont b1 then
          option_map
            (cons (Z.lor (Z.shiftl (Z.land x0 0x1F) 6) (cont_bits b1)))
            (utf8_decode r1)
        else None
      | _ => None
      end
    else if in_range 0xE0 0xEF x0 then
      match r0 with
      | b1 :: b2 :: r2 =>
        let lo := if x0 =? 0xE0 then 0xA0 else 0x80 in
        let hi := if x0 =? 0xED then 0x9F else 0xBF in
        if in_range lo hi (byte_val b1) && is_cont b2 then
          option_map
            (cons (Z.lor (Z.shiftl (Z.land x0 0x0F) 12)
                     (Z.lor (Z.shiftl (cont_bits b1) 6) (cont_bits b2))))
            (utf8_decode r2)
        else None
      | _ => None
      end
    else if in_range 0xF0 0xF4 x0 then
      match r0 with
      | b1 :: b2 :: b3 :: r3 =>
        let lo := if x0 =? 0xF0 then 0x90 else 0x80 in
        let hi := if x0 =? 0xF4 then 0x8F else 0xBF in
        if in_range lo hi (byte_val b1) && is_cont b2 && is_cont b3 then
          option_map
            (cons (Z.lor (Z.shiftl (Z.land x0 0x07) 18)
                     (Z.lor (Z.shiftl (cont_bits b1) 12)
                        (Z.lor (Z.shiftl (cont_bits b2) 6) (cont_bits b3)))))
            (utf8_decode r3)
        else None
      | _ => None
      end
    else None
  end.

(** [result.decode('utf-8')] *)
Definition decode_utf8 (bs : bytes) : res pystr :=
  match utf8_decode bs with
  | Some s => Ok s
  | None => Raise UnicodeDecodeError
  end.

(** ** Formatter *)

Definition hex_digit (d : Z) : ascii :=
  if d <? 10 then ascii_of_nat (Z.to_nat (48 + d))
  else ascii_of_nat (Z.to_nat (87 + d)).

(** [f'{byte:02x}'] *)
Definition hex_byte (b : byte) : string :=
  String (hex_digit (byte_val b / 16))
    (String (hex_digit (byte_val b mod 16)) EmptyString).

(** [' '.join(...)] *)
Fixpoint join (sep : string) (parts : list string) : string :=
  match parts with
  | [] => EmptyString
  | [p] => p
  | p :: rest => (p ++ sep ++ join sep rest)%string
  end.

Definition buffer_to_pretty_hex (buffer : bytes) : string :=
  join " " (map hex_byte buffer).

(** ** Constants *)

Definition WIRE_TYPE_VARINT : Z := 0.
Definition WIRE_TYPE_64BIT : Z := 1.
Definition WIRE_TYPE_LENGTH_DELIMITED : Z := 2.
Definition WIRE_TYPE_32BIT : Z := 5.

(** ** [BufferReader._decode_varint] *)

(** The [while True] loop.  Every round reads [buffer[pos]] and moves [pos]
    one step to the right, so at most [len buffer - pos] rounds run before
    the index leaves the buffer; [budget] counts them down. *)
Fixpoint varint_loop (budget : nat) (buffer : bytes) (pos shift result : Z)
  : res (Z * Z) :=
  match budget with
  | O => Raise IndexError
  | S budget' =>
    byte <- getitem buffer pos ;;
    let pos := pos + 1 in
    let result := Z.lor result (Z.shiftl (Z.land byte 0x7F) shift) in
    if Z.land byte 0x80 =? 0 then Ok (result, pos)
    else varint_loop budget' buffer pos (shift + 7) result
  end.

Definition varint_from (buffer : bytes) (pos shift result : Z) : res (Z * Z) :=
  varint_loop (Z.to_nat (len buffer - pos)) buffer pos shift result.

Definition _decode_varint (buffer : bytes) (pos : Z) : res (Z * Z * (Z * Z)) :=
  let shift := 0 in
  let result := 0 in
  let start_pos := pos in
  '(result, pos) <- varint_from buffer pos shift result ;;
  Ok (result, pos, (start_pos, pos)).

(** ** Byte Cursor *)

(** A Python object as far as tuple assignment needs it. *)
Inductive pyobj : Type :=
| PyInt (z : Z)
| PyTuple (items : list pyobj).

(** [a, b = t]: the right-hand side must have exactly two items. *)
Definition unpack2 (t : list pyobj) : res (pyobj * pyobj) :=
  match t with
  | [a; b] => Ok (a, b)
  | _ => Raise (ValueError_unpack 2)
  end.

Module BufferReader.

Record t : Type := Build {
  buffer : bytes;
  offset : Z;
  saved_offset : Z
}.

Definition __init__ (buffer : bytes) : t := Build buffer 0 0.

Definition set_offset (self : t) (o : Z) : t :=
  Build (buffer self) o (saved_offset self).

Definition left_bytes (self : t) : Z := len (buffer self) - offset self.

Definition _check_byte (self : t) (length : Z) : res unit :=
  let bytes_available := left_bytes self in
  if bytes_available <? length
  then Raise (ValueError_bytes_left length bytes_available)
  else Ok tt.

(** [value, self.offset = self._decode_varint(self.buffer, self.offset)]:
    the call returns a tuple of three items, the assignment has two
    targets. *)
Definition read_varint (self : t) : res (pyobj * t) :=
  '(result, pos, (start_pos, end_pos)) <-
     _decode_varint (buffer self) (offset self) ;;
  '(value, new_offset) <-
     unpack2 [PyInt result; PyInt pos; PyTuple [PyInt start_pos; PyInt end_pos]] ;;
  match new_offset with
  | PyInt o => Ok (value, set_offset self o)
  | PyTuple _ => Raise (ValueError_unpack 2)
  end.

Definition read_buffer (self : t) (length : Z) : res (bytes * t) :=
  _ <- _check_byte self length ;;
  let result := slice (buffer self) (offset self) (offset self + length) in
  Ok (result, set_offset self (offset self + length)).

Definition try_skip_grpc_header (self : t) : res t :=
  let backup_offset := offset self in
  current <- getitem (buffer self) (offset self) ;;
  if (current =? 0) && (5 <=? left_bytes self) then
    let self := set_offset self (offset self + 1) in
    length <- unpack_from_gt_I (buffer self) (offset self) ;;
    let self := set_offset self (offset self + 4) in
    if left_bytes self <? length
    then Ok (set_offset self backup_offset)
    else Ok self
  else Ok self.

Definition checkpoint (self : t) : t :=
  Build (buffer self) (offset self) (offset self).

Definition reset_to_checkpoint (self : t) : t :=
  Build (buffer self) (saved_offset self) (saved_offset self).

End BufferReader.

(** ** Scalar Reinterpreter *)

Inductive scalar : Type :=
| IntValue (z : Z)
| FloatValue (f : spec_float).

(** [{"type": ..., "value": ...}] *)
Record candidate : Type := Candidate {
  c_type : string;
  c_value : scalar
}.

Definition interpret_as_signed_type (n : Z) : Z :=
  if Z.land n 1 =? 0 then Z.shiftr n 1
  else - (Z.shiftr (n + 1) 1).

(** Not called by the decoder; [bits] is positive wherever it is used
    below. *)
Definition interpret_as_twos_complement (n bits : Z) : Z :=
  if negb (Z.land (Z.shiftr n (bits - 1)) 1 =? 0) then n - Z.shiftl 1 bits
  else n.

Definition decode_varint_parts (value : Z) : res (list candidate) :=
  let result := [] in
  let result := result ++ [Candidate "uint" (IntValue value)] in
  packed32 <- pack_lt_I (Z.land value 0xFFFFFFFF) ;;
  int32_value <- unpack_lt_i packed32 ;;
  packed64 <- pack_lt_Q (Z.land value 0xFFFFFFFFFFFFFFFF) ;;
  int64_value <- unpack_lt_q packed64 ;;
  let result :=
    if negb (int32_value =? value)
    then result ++ [Candidate "int32" (IntValue int32_value)] else result in
  let result :=
    if negb (int64_value =? value)
    then result ++ [Candidate "int64" (IntValue int64_value)] else result in
  let signed_value := interpret_as_signed_type value in
  let result :=
    if negb (signed_value =? value)
    then result ++ [Candidate "sint" (IntValue signed_value)] else result in
  Ok result.

Definition decode_fixed32 (value : Z) : res (list candidate) :=
  packed <- pack_lt_I value ;;
  float_value <- unpack_lt_f packed ;;
  Ok [Candidate "float" (FloatValue float_value);
      Candidate "int" (IntValue value)].

Definition decode_fixed64 (value : Z) : res (list candidate) :=
  packed <- pack_lt_Q value ;;
  double_value <- unpack_lt_d packed ;;
  Ok [Candidate "double" (FloatValue double_value);
      Candidate "int" (IntValue value)].

(** ** Field records *)

(** The dictionary [decode_field] builds, and what its ["Content"] holds: the
    candidate list of a scalar, or one of the three dictionaries of
    [decode_length_delimited], told apart by their ["type"].  ["Byte Range"]
    keeps the two numbers; [Byte_Range_str] is the text the program stores. *)
Inductive field_info : Type :=
| FieldInfo (Byte_Range : Z * Z) (Field_Number : Z) (Type_ : string)
            (Original_Hex : string) (Content : content)
with content : Type :=
| Content_candidates (candidates : list candidate)
| Content_string (value : pystr) (hex : string)
| Content_protobuf (value : list field_info) (hex : string)
| Content_bytes (value : string) (hex : string).

Definition Byte_Range (f : field_info) : Z * Z :=
  match f with FieldInfo r _ _ _ _ => r end.
Definition Field_Number (f : field_info) : Z :=
  match f with FieldInfo _ n _ _ _ => n end.
Definition Type_ (f : field_info) : string :=
  match f with FieldInfo _ _ s _ _ => s end.
Definition Original_Hex (f : field_info) : string :=
  match f with FieldInfo _ _ _ h _ => h end.
Definition Content (f : field_info) : content :=
  match f with FieldInfo _ _ _ _ c => c end.

Definition wire_type_to_string (wire_type : Z) : string :=
  match find (fun kv => fst kv =? wire_type)
          [(WIRE_TYPE_VARINT, "varint"%string);
           (WIRE_TYPE_64BIT, "fixed64"%string);
           (WIRE_TYPE_LENGTH_DELIMITED, "length_delimited"%string);
           (WIRE_TYPE_32BIT, "fixed32"%string)] with
  | Some kv => snd kv
  | None => "unknown"%string
  end.

(** ** Field Decoder and Message Decoder *)

Section Decoder.

(** The three functions call each other; [decode_protobuf] stands for the
    call that [decode_length_delimited] makes on the payload. *)
Variable decode_protobuf : bytes -> res (list field_info).

Definition decode_length_delimited_with (buffer : bytes) (pos : Z)
  : res (content * Z) :=
  '(length, pos, _) <- _decode_varint buffer pos ;;
  let result := slice buffer pos (pos + length) in
  let pos := pos + length in
  match decode_utf8 result with
  | Ok result_str =>
    Ok (Content_string result_str (buffer_to_pretty_hex result), pos)
  | Raise UnicodeDecodeError =>
    match decode_protobuf result with
    | Ok nested_message =>
      Ok (Content_protobuf nested_message (buffer_to_pretty_hex result), pos)
    | Raise _ =>
      Ok (Content_bytes (buffer_to_pretty_hex result)
            (buffer_to_pretty_hex result), pos)
    end
  | Raise e => Raise e
  end.

Definition decode_field_with (buffer : bytes) (pos : Z)
  : res (field_info * Z) :=
  '(key, pos, key_range) <- _decode_varint buffer pos ;;
  let field_number := Z.shiftr key 3 in
  let wire_type := Z.land key 0x07 in
  let value_range := (pos, pos) in
  let original_value := slice buffer (fst key_range) pos in
  '(value, pos, value_range) <-
    (if wire_type =? WIRE_TYPE_VARINT then
       '(value, pos, value_range) <- _decode_varint buffer pos ;;
       value <- decode_varint_parts value ;;
       Ok (Content_candidates value, pos, value_range)
     else if wire_type =? WIRE_TYPE_64BIT then
       value <- unpack_from_lt_Q buffer pos ;;
       let pos := pos + 8 in
       value <- decode_fixed64 value ;;
       Ok (Content_candidates value, pos, (fst value_range, pos))
     else if wire_type =? WIRE_TYPE_LENGTH_DELIMITED then
       '(value, pos) <- decode_length_delimited_with buffer pos ;;
       Ok (value, pos, (fst value_range, pos))
     else if wire_type =? WIRE_TYPE_32BIT then
       value <- unpack_from_lt_I buffer pos ;;
       let pos := pos + 4 in
       value <- decode_fixed32 value ;;
       Ok (Content_candidates value, pos, (fst value_range, pos))
     else Raise (ValueError_wire_type wire_type)) ;;
  let field_info :=
    FieldInfo (fst key_range, snd value_range) field_number
      (wire_type_to_string wire_type)
      (buffer_to_pretty_hex original_value) value in
  Ok (field_info, pos).

End Decoder.

(** The [while pos < len(buffer)] loop of [decode_protobuf], for a given
    field decoder.  [budget] bounds the number of rounds. *)
Fixpoint message_loop (decode_field : Z -> res (field_info * Z))
    (length : Z) (budget : nat) (pos : Z) (decoded_message : list field_info)
  : res (list field_info) :=
  if pos <? length then
    match budget with
    | O => Raise BudgetExhausted
    | S budget' =>
      '(field_info, pos) <- decode_field pos ;;
      message_loop decode_field length budget' pos
        (decoded_message ++ [field_info])
    end
  else Ok decoded_message.

(** [decode_protobuf] with a bound [depth] on the nesting of messages. *)
Fixpoint decode_protobuf_depth (depth : nat) (buffer : bytes)
  : res (list field_info) :=
  match depth with
  | O => Raise BudgetExhausted
  | S depth' =>
    let pos := 0 in
    let decoded_message := [] in
    message_loop (decode_field_with (decode_protobuf_depth depth') buffer)
      (len buffer) (length buffer) pos decoded_message
  end.

(** A payload is shorter than the buffer it is cut from and each field takes
    at least one byte, so a buffer of [n] bytes needs depth [n + 1] and [n]
    rounds at most. *)
Definition decode_protobuf (buffer : bytes) : res (list field_info) :=
  decode_protobuf_depth (S (length buffer)) buffer.

Definition decode_length_delimited : bytes -> Z -> res (content * Z) :=
  decode_length_delimited_with decode_protobuf.

Definition decode_field : bytes -> Z -> res (field_info * Z) :=
  decode_field_with decode_protobuf.

(** The rounds of [decode_protobuf] from [pos] on. *)
Definition message_from (buffer : bytes) (pos : Z)
    (decoded_message : list field_info) : res (list field_info) :=
  message_loop (decode_field buffer) (len buffer)
    (Z.to_nat (len buffer - pos)) pos decoded_message.

(** ["Byte Range": f"{key_range[0]}-{value_range[1]}"] *)
Definition Z_to_str (z : Z) : string :=
  DecimalString.NilZero.string_of_int (Z.to_int z).

Definition Byte_Range_str (f : field_info) : string :=
  (Z_to_str (fst (Byte_Range f)) ++ "-" ++ Z_to_str (snd (Byte_Range f)))%string.

(** ** The specification's words *)

(** "Two's-complement of the low [bits] bits" of a value. *)
Definition twos_complement (bits value : Z) : Z :=
  let u := value mod 2 ^ bits in
  if u <? 2 ^ (bits - 1) then u else u - 2 ^ bits.

(** "Zig-zag: V>>1 if V is even, else -((V+1)>>1)". *)
Definition zigzag (value : Z) : Z :=
  if Z.even value then value / 2 else - ((value + 1) / 2).

(** A candidate is kept when its value "differs numerically from V". *)
Definition differs_from (value : Z) (c : candidate) : bool :=
  match c_value c with
  | IntValue x => negb (x =? value)
  | FloatValue _ => true
  end.

(** A tag's wire type that [decode_field] has no branch for. *)
Definition unsupported (wire_type : Z) : Prop :=
  wire_type <> WIRE_TYPE_VARINT /\ wire_type <> WIRE_TYPE_64BIT /\
  wire_type <> WIRE_TYPE_LENGTH_DELIMITED /\ wire_type <> WIRE_TYPE_32BIT.

(** The offsets at which the loop of [decode_protobuf buffer] starts a
    field. *)
Inductive field_start (buffer : bytes) : Z -> Prop :=
| field_start_first : field_start buffer 0
| field_start_next (pos pos' : Z) (f : field_info) :
    field_start buffer pos ->
    pos < len buffer ->
    decode_field buffer pos = Ok (f, pos') ->
    field_start buffer pos'.

(** [tag_decoded top buffer pos]: while [decode_protobuf top] runs, a tag
    varint is decoded at offset [pos] of [buffer], which is [top] itself or
    the payload of a length-delimited field on which the nested decode is
    tried. *)
Inductive tag_decoded (top : bytes) : bytes -> Z -> Prop :=
| tag_decoded_top (pos : Z) :
    field_start top pos -> pos < len top -> tag_decoded top top pos
| tag_decoded_nested (buffer : bytes) (pos key p0 length p1 q : Z) :
    tag_decoded top buffer pos ->
    _decode_varint buffer pos = Ok (key, p0, (pos, p0)) ->
    Z.land key 0x07 = WIRE_TYPE_LENGTH_DELIMITED ->
    _decode_varint buffer p0 = Ok (length, p1, (p0, p1)) ->
    utf8_decode (slice buffer p1 (p1 + length)) = None ->
    field_start (slice buffer p1 (p1 + length)) q ->
    q < len (slice buffer p1 (p1 + length)) ->
    tag_decoded top (slice buffer p1 (p1 + length)) q.

(** The byte range of [f] denotes offsets into [buffer]: the field that
    starts at the first of the two offsets of [buffer] decodes to [f] and
    ends at the second. *)
Definition located_in (buffer : bytes) (f : field_info) : Prop :=
  decode_field buffer (fst (Byte_Range f)) = Ok (f, snd (Byte_Range f)).

(** A record and the records of the nested messages below it. *)
Fixpoint records_of (f : field_info) : list field_info :=
  match f with
  | FieldInfo _ _ _ _ (Content_protobuf value _) =>
    f :: flat_map records_of value
  | _ => [f]
  end.

(** The byte range of [f] denotes offsets into [buffer], and the records of
    a nested message in [f] have ranges that denote offsets into the payload
    of [f], the slice of [buffer] that ends where [f] ends. *)
Inductive located_tree : bytes -> field_info -> Prop :=
| located_tree_intro (buffer : bytes) (f : field_info) :
    located_in buffer f ->
    (forall value hex, Content f = Content_protobuf value hex ->
       exists p,
         fst (Byte_Range f) < p /\
         hex = buffer_to_pretty_hex (slice buffer p (snd (Byte_Range f))) /\
         Forall (located_tree (slice buffer p (snd (Byte_Range f)))) value) ->
    located_tree buffer f.

(** "The low 7 bits of each byte OR'd in at an accumulating multiple-of-7
    shift". *)
Fixpoint leb128 (shift : Z) (group : list Z) : Z :=
  match group with
  | [] => 0
  | byte :: rest =>
    Z.lor (Z.shiftl (Z.land byte 0x7F) shift) (leb128 (shift + 7) rest)
  end.

(** The bytes of [buffer] from offset [pos] on begin with a varint:
    [more] bytes with the high bit set, then [last] with the high bit
    clear. *)
Definition varint_at (buffer : bytes) (pos : Z) (more : list Z) (last : Z)
  : Prop :=
  0 <= pos /\
  (forall i, (i < length more)%nat ->
     getitem buffer (pos + Z.of_nat i) = Ok (nth i more 0) /\
     Z.land (nth i more 0) 0x80 <> 0) /\
  getitem buffer (pos + Z.of_nat (length more)) = Ok last /\
  Z.land last 0x80 = 0.


(** ** Notions for the properties of a whole message *)

(** [run buffer pos records stop]: from offset [pos] the loop of
    [decode_protobuf buffer] decodes the fields [records], one after the
    other, and leaves the loop at offset [stop]. *)
Inductive run (buffer : bytes) : Z -> list field_info -> Z -> Prop :=
| run_done (pos : Z) : len buffer <= pos -> run buffer pos [] pos
| run_step (pos pos' stop : Z) (f : field_info) (rest : list field_info) :
    pos < len buffer ->
    decode_field buffer pos = Ok (f, pos') ->
    run buffer pos' rest stop ->
    run buffer pos (f :: rest) stop.

(** The byte ranges of [records] lie end to end from [start] to [stop]. *)
Fixpoint tiles (start : Z) (records : list field_info) (stop : Z) : Prop :=
  match records with
  | [] => start = stop
  | f :: rest =>
    fst (Byte_Range f) = start /\ tiles (snd (Byte_Range f)) rest stop
  end.


(** * Properties *)

(** ** Tactics *)

(** Case analysis on the head of a chain of binds. *)
Ltac step_bind H :=
  match type of H with
  | bind ?m _ = _ =>
    let E := fresh "E" in
    destruct m eqn:E; cbn [bind] in H; [| try discriminate H]
  end.

Ltac bool_lia :=
  repeat match goal with
  | H : (_ <? _) = true |- _ => apply Z.ltb_lt in H
  | H : (_ <? _) = false |- _ => apply Z.ltb_ge in H
  | H : (_ <=? _) = true |- _ => apply Z.leb_le in H
  | H : (_ <=? _) = false |- _ => apply Z.leb_gt in H
  | H : (_ =? _) = true |- _ => apply Z.eqb_eq in H
  | H : (_ =? _) = false |- _ => apply Z.eqb_neq in H
  | H : (_ || _)%bool = true |- _ => apply orb_true_iff in H; destruct H
  | H : (_ || _)%bool = false |- _ => apply orb_false_iff in H; destruct H
  | H : (_ && _)%bool = true |- _ => apply andb_true_iff in H; destruct H
  end; try lia.

(** The three "present exactly when" statements about a candidate list. *)
Ltac solve_candidate_iff :=
  let H := fresh in
  intros ?; rewrite filter_In; cbn [In]; split;
  [ intros [[H | [H | [H | []]]] D]; inversion H; subst;
    cbn [differs_from c_value] in D;
    split; [reflexivity | intros Heq; rewrite Heq, Z.eqb_refl in D;
                          discriminate D]
  | intros [-> D]; split; [auto |];
    cbn [differs_from c_value]; apply negb_true_iff, Z.eqb_neq, D ].

(** ** Bytes, indexing and slices *)

Lemma byte_val_range (b : byte) : 0 <= byte_val b < 256.
Proof.
  unfold byte_val. pose proof (Byte.to_N_bounded b). lia.
Qed.

Lemma len_nonneg (buffer : bytes) : 0 <= len buffer.
Proof. unfold len. lia. Qed.

Lemma getitem_Ok (buffer : bytes) (i v : Z) :
  getitem buffer i = Ok v ->
  - len buffer <= i < len buffer /\ 0 <= v < 256.
Proof.
  unfold getitem. intros H.
  destruct (i <? 0) eqn:Hi;
    destruct (_ || _)%bool eqn:Hb; try discriminate;
    destruct (nth_error _ _) eqn:Hn; try discriminate;
    injection H as <-; split; try apply byte_val_range; bool_lia.
Qed.

Lemma getitem_past_end (buffer : bytes) (i : Z) :
  len buffer <= i -> getitem buffer i = Raise IndexError.
Proof.
  intros H. unfold getitem. pose proof (len_nonneg buffer).
  destruct (i <? 0) eqn:Hi; [bool_lia |].
  destruct (_ || _)%bool eqn:Hb; [reflexivity | bool_lia].
Qed.

Lemma getitem_Raise (buffer : bytes) (i : Z) (e : exn) :
  getitem buffer i = Raise e -> e = IndexError.
Proof.
  unfold getitem. intros H.
  destruct (_ || _)%bool; [congruence |].
  destruct (nth_error _ _); congruence.
Qed.

(** Inside the buffer, indexing is [nth_error]. *)
Lemma getitem_nth (buffer : bytes) (i : Z) :
  0 <= i < len buffer ->
  exists b, nth_error buffer (Z.to_nat i) = Some b /\
            getitem buffer i = Ok (byte_val b).
Proof.
  intros H. unfold getitem.
  destruct (i <? 0) eqn:Hi; [bool_lia |].
  destruct (_ || _)%bool eqn:Hb; [bool_lia |].
  destruct (nth_error buffer (Z.to_nat i)) eqn:Hn; [eauto |].
  apply nth_error_None in Hn. unfold len in H. lia.
Qed.

Lemma clamp_inside (n i : Z) : 0 <= i <= n -> clamp n i = i.
Proof. unfold clamp. intros H. destruct (i <? 0) eqn:E; bool_lia. Qed.


Lemma slice_length (buffer : bytes) (a b : Z) :
  (length (slice buffer a b) <= length buffer - Z.to_nat (clamp (len buffer) a))%nat.
Proof.
  unfold slice. cbv zeta. rewrite length_firstn, length_skipn.
  apply Nat.le_min_r.
Qed.

Lemma slice_shorter (buffer : bytes) (a b : Z) :
  0 < a <= len buffer ->
  (length (slice buffer a b) < length buffer)%nat.
Proof.
  intros H. pose proof (slice_length buffer a b) as L.
  rewrite clamp_inside in L by lia. unfold len in H. lia.
Qed.

(** ** The varint loop *)

(** The budget of [varint_from] is invisible: the loop satisfies the equation
    of the source's [while True]. *)
Lemma varint_from_eq (buffer : bytes) (pos shift result : Z) :
  varint_from buffer pos shift result =
  (byte <- getitem buffer pos ;;
   let pos := pos + 1 in
   let result := Z.lor result (Z.shiftl (Z.land byte 0x7F) shift) in
   if Z.land byte 0x80 =? 0 then Ok (result, pos)
   else varint_from buffer pos (shift + 7) result).
Proof.
  unfold varint_from.
  destruct (Z.to_nat (len buffer - pos)) as [| n] eqn:E.
  - rewrite getitem_past_end by lia. reflexivity.
  - cbn [varint_loop].
    replace (Z.to_nat (len buffer - (pos + 1))) with n by lia.
    reflexivity.
Qed.

Lemma varint_loop_Ok (budget : nat) :
  forall (buffer : bytes) (pos shift result v pos' : Z),
  varint_loop budget buffer pos shift result = Ok (v, pos') ->
  pos < pos' <= len buffer /\ (0 <= result -> 0 <= v).
Proof.
  induction budget as [| n IH]; intros buffer pos shift result v pos' H;
    cbn [varint_loop] in H; [discriminate |].
  step_bind H. apply getitem_Ok in E as [Hi Hv].
  assert (Hacc : 0 <= result ->
                 0 <= Z.lor result (Z.shiftl (Z.land a 127) shift)).
  { intros Hr. apply Z.lor_nonneg. split; [lia |].
    apply Z.shiftl_nonneg, Z.land_nonneg. lia. }
  destruct (Z.land a 128 =? 0); [injection H as <- <- | apply IH in H].
  - split; [lia | exact Hacc].
  - destruct H as [H1 H2]. split; [lia | auto].
Qed.

Lemma varint_loop_Raise (budget : nat) :
  forall (buffer : bytes) (pos shift result : Z) (e : exn),
  varint_loop budget buffer pos shift result = Raise e -> e = IndexError.
Proof.
  induction budget as [| n IH]; intros buffer pos shift result e H;
    cbn [varint_loop] in H; [congruence |].
  destruct (getitem buffer pos) eqn:E; cbn [bind] in H.
  - destruct (Z.land a 128 =? 0); [discriminate | eauto].
  - apply getitem_Raise in E. congruence.
Qed.

Lemma _decode_varint_Ok (buffer : bytes) (pos v pos' : Z) (range : Z * Z) :
  _decode_varint buffer pos = Ok (v, pos', range) ->
  range = (pos, pos') /\ pos < pos' <= len buffer /\ 0 <= v.
Proof.
  unfold _decode_varint, varint_from. intros H. step_bind H.
  destruct a as [r p]. injection H as <- <- <-.
  apply varint_loop_Ok in E as [H1 H2]. repeat split; lia.
Qed.

Lemma _decode_varint_Raise (buffer : bytes) (pos : Z) (e : exn) :
  _decode_varint buffer pos = Raise e -> e = IndexError.
Proof.
  unfold _decode_varint, varint_from. intros H.
  destruct (varint_loop _ _ _ _ _) as [[r p] |] eqn:E; cbn in H;
    [discriminate |].
  injection H as <-. eapply varint_loop_Raise, E.
Qed.

(** ** The [struct] module *)

Lemma byte_val_of_Z (z : Z) : byte_val (byte_of_Z z) = z mod 256.
Proof.
  unfold byte_val, byte_of_Z.
  pose proof (Z.mod_pos_bound z 256 ltac:(lia)) as Hm.
  destruct (Byte.of_N (Z.to_N (z mod 256))) as [b |] eqn:E.
  - apply Byte.to_of_N in E. rewrite E. lia.
  - apply Byte.of_N_None_iff in E. lia.
Qed.

Lemma Z_to_le_length (n : nat) : forall z, length (Z_to_le n z) = n.
Proof. induction n; intros z; cbn; [reflexivity | now rewrite IHn]. Qed.

Lemma le_to_Z_range (bs : bytes) :
  0 <= le_to_Z bs < 2 ^ (8 * Z.of_nat (length bs)).
Proof.
  induction bs as [| b bs IH]; [cbn; lia |].
  cbn [le_to_Z length]. pose proof (byte_val_range b).
  replace (8 * Z.of_nat (S (length bs))) with (8 + 8 * Z.of_nat (length bs))
    by lia.
  rewrite Z.pow_add_r by lia. change (2 ^ 8) with 256. nia.
Qed.

Lemma le_to_Z_to_le (n : nat) :
  forall z, le_to_Z (Z_to_le n z) = z mod 2 ^ (8 * Z.of_nat n).
Proof.
  induction n as [| n IH]; intros z.
  - cbn. now rewrite Z.mod_1_r.
  - cbn [Z_to_le le_to_Z]. rewrite byte_val_of_Z, IH.
    replace (8 * Z.of_nat (S n)) with (8 + 8 * Z.of_nat n) by lia.
    rewrite Z.pow_add_r by lia. change (2 ^ 8) with 256.
    rewrite Z.rem_mul_r by lia. reflexivity.
Qed.

Lemma pack_unsigned_Ok (size : nat) (v : Z) :
  0 <= v < 2 ^ (8 * Z.of_nat size) ->
  pack_unsigned size v = Ok (Z_to_le size v).
Proof.
  intros H. unfold pack_unsigned.
  destruct (_ || _)%bool eqn:E; [bool_lia | reflexivity].
Qed.

Lemma unpack_from_bytes_length (size : nat) (buffer bs : bytes) (offset : Z) :
  unpack_from_bytes size buffer offset = Ok bs -> length bs = size.
Proof.
  unfold unpack_from_bytes. intros H.
  destruct (_ <? 0) eqn:E1 in H; [discriminate |].
  destruct (_ <? Z.of_nat size) eqn:E2 in H; [discriminate |].
  injection H as <-. rewrite length_firstn, length_skipn.
  unfold len in *. apply Z.ltb_ge in E1, E2. lia.
Qed.

Lemma unpack_from_bytes_Raise (size : nat) (buffer : bytes) (offset : Z)
    (e : exn) :
  unpack_from_bytes size buffer offset = Raise e -> e = StructError.
Proof.
  unfold unpack_from_bytes. intros H.
  destruct (_ <? 0) in H; [congruence |].
  destruct (_ <? Z.of_nat size) in H; congruence.
Qed.

Lemma unpack_from_lt_I_range (buffer : bytes) (offset v : Z) :
  unpack_from_lt_I buffer offset = Ok v -> 0 <= v < 2 ^ 32.
Proof.
  unfold unpack_from_lt_I. intros H. step_bind H. injection H as <-.
  apply unpack_from_bytes_length in E.
  pose proof (le_to_Z_range a) as R. rewrite E in R. exact R.
Qed.

Lemma unpack_from_lt_Q_range (buffer : bytes) (offset v : Z) :
  unpack_from_lt_Q buffer offset = Ok v -> 0 <= v < 2 ^ 64.
Proof.
  unfold unpack_from_lt_Q. intros H. step_bind H. injection H as <-.
  apply unpack_from_bytes_length in E.
  pose proof (le_to_Z_range a) as R. rewrite E in R. exact R.
Qed.

(** ** Scalar Reinterpreter *)

(** Packing the low bits and unpacking them signed is the two's complement
    of those bits. *)
Lemma pack_unpack_signed (size : nat) (value : Z) :
  (0 < size)%nat ->
  (packed <- pack_unsigned size (Z.land value (Z.ones (8 * Z.of_nat size))) ;;
   unpack_signed size packed) =
  Ok (twos_complement (8 * Z.of_nat size) value).
Proof.
  intros Hs. rewrite Z.land_ones by lia.
  pose proof (Z.mod_pos_bound value (2 ^ (8 * Z.of_nat size))
                ltac:(apply Z.pow_pos_nonneg; lia)) as Hm.
  rewrite pack_unsigned_Ok by exact Hm. cbn [bind].
  unfold unpack_signed. rewrite Z_to_le_length, Nat.eqb_refl. cbn [negb].
  rewrite le_to_Z_to_le, Z.mod_mod
    by (apply Z.pow_nonzero; lia).
  unfold twos_complement.
  destruct (_ <=? _) eqn:E1; destruct (_ <? _) eqn:E2; bool_lia; reflexivity.
Qed.

Lemma land_1 (x : Z) : Z.land x 1 = x mod 2.
Proof. exact (Z.land_ones x 1 ltac:(lia)). Qed.

Lemma interpret_as_twos_complement_spec (bits value : Z) :
  0 < bits ->
  interpret_as_twos_complement (value mod 2 ^ bits) bits =
  twos_complement bits value.
Proof.
  intros Hb. unfold interpret_as_twos_complement, twos_complement.
  pose proof (Z.mod_pos_bound value (2 ^ bits)
                ltac:(apply Z.pow_pos_nonneg; lia)) as Hm.
  set (u := value mod 2 ^ bits) in *.
  rewrite land_1, Z.shiftr_div_pow2, Z.shiftl_1_l by lia.
  assert (Hp : 2 ^ bits = 2 * 2 ^ (bits - 1)).
  { replace bits with (1 + (bits - 1)) at 1 by lia.
    rewrite Z.pow_add_r by lia. reflexivity. }
  assert (Hpos : 0 < 2 ^ (bits - 1)) by (apply Z.pow_pos_nonneg; lia).
  destruct (u <? 2 ^ (bits - 1)) eqn:E; bool_lia.
  - rewrite Z.div_small by lia. reflexivity.
  - assert (u / 2 ^ (bits - 1) = 1) as ->; [| reflexivity].
    symmetry. apply (Z.div_unique _ _ 1 (u - 2 ^ (bits - 1))); lia.
Qed.

Lemma interpret_as_signed_type_spec (value : Z) :
  interpret_as_signed_type value = zigzag value.
Proof.
  unfold interpret_as_signed_type, zigzag.
  rewrite land_1, !Z.shiftr_div_pow2 by lia.
  change (2 ^ 1) with 2. rewrite Zdiv.Zmod_even.
  destruct (Z.even value); reflexivity.
Qed.

Lemma decode_varint_parts_eq (value : Z) :
  decode_varint_parts value =
  Ok (Candidate "uint" (IntValue value) ::
      filter (differs_from value)
        [Candidate "int32" (IntValue (twos_complement 32 value));
         Candidate "int64" (IntValue (twos_complement 64 value));
         Candidate "sint" (IntValue (zigzag value))]).
Proof.
  unfold decode_varint_parts, pack_lt_I, pack_lt_Q, unpack_lt_i, unpack_lt_q.
  pose proof (pack_unpack_signed 4 value ltac:(lia)) as H32.
  pose proof (pack_unpack_signed 8 value ltac:(lia)) as H64.
  change (Z.ones (8 * Z.of_nat 4)) with 0xFFFFFFFF in H32.
  change (Z.ones (8 * Z.of_nat 8)) with 0xFFFFFFFFFFFFFFFF in H64.
  change (8 * Z.of_nat 4) with 32 in H32.
  change (8 * Z.of_nat 8) with 64 in H64.
  destruct (pack_unsigned 4 _) as [p32 |]; cbn [bind] in H32 |- *;
    [| discriminate].
  rewrite H32. cbn [bind].
  destruct (pack_unsigned 8 _) as [p64 |]; cbn [bind] in H64 |- *;
    [| discriminate].
  rewrite H64. cbn [bind]. rewrite interpret_as_signed_type_spec.
  cbn [filter differs_from c_value].
  destruct (twos_complement 32 value =? value);
    destruct (twos_complement 64 value =? value);
    destruct (zigzag value =? value); reflexivity.
Qed.

Lemma decode_fixed32_eq (value : Z) :
  0 <= value < 2 ^ 32 ->
  decode_fixed32 value =
  Ok [Candidate "float" (FloatValue (ieee_of_bits 23 8 value));
      Candidate "int" (IntValue value)].
Proof.
  intros H. unfold decode_fixed32, pack_lt_I, unpack_lt_f.
  rewrite pack_unsigned_Ok by exact H. cbn [bind].
  rewrite Z_to_le_length, le_to_Z_to_le. cbn [Nat.eqb negb bind].
  rewrite Z.mod_small by exact H. reflexivity.
Qed.

Lemma decode_fixed64_eq (value : Z) :
  0 <= value < 2 ^ 64 ->
  decode_fixed64 value =
  Ok [Candidate "double" (FloatValue (ieee_of_bits 52 11 value));
      Candidate "int" (IntValue value)].
Proof.
  intros H. unfold decode_fixed64, pack_lt_Q, unpack_lt_d.
  rewrite pack_unsigned_Ok by exact H. cbn [bind].
  rewrite Z_to_le_length, le_to_Z_to_le. cbn [Nat.eqb negb bind].
  rewrite Z.mod_small by exact H. reflexivity.
Qed.

(** ** One field *)

Section FieldDecoder.

Variable nested : bytes -> res (list field_info).

(** What a successful [decode_length_delimited] has done. *)
Lemma decode_length_delimited_with_Ok (buffer : bytes) (pos pos' : Z)
    (c : content) :
  decode_length_delimited_with nested buffer pos = Ok (c, pos') ->
  exists length p1,
    _decode_varint buffer pos = Ok (length, p1, (pos, p1)) /\
    pos' = p1 + length /\
    let result := slice buffer p1 (p1 + length) in
    match utf8_decode result with
    | Some s => c = Content_string s (buffer_to_pretty_hex result)
    | None =>
      match nested result with
      | Ok m => c = Content_protobuf m (buffer_to_pretty_hex result)
      | Raise _ => c = Content_bytes (buffer_to_pretty_hex result)
                        (buffer_to_pretty_hex result)
      end
    end.
Proof.
  unfold decode_length_delimited_with, decode_utf8. intros H.
  step_bind H. destruct a as [[length p1] range].
  destruct (_decode_varint_Ok _ _ _ _ _ E) as (-> & _).
  exists length, p1. split; [reflexivity |]. cbv zeta in H |- *.
  destruct (utf8_decode _).
  - injection H as <- <-. auto.
  - destruct (nested _); injection H as <- <-; auto.
Qed.

Lemma decode_length_delimited_with_Raise (buffer : bytes) (pos : Z)
    (e : exn) :
  decode_length_delimited_with nested buffer pos = Raise e ->
  _decode_varint buffer pos = Raise e.
Proof.
  unfold decode_length_delimited_with, decode_utf8. intros H.
  destruct (_decode_varint buffer pos) as [[[length p1] range] |] eqn:E;
    cbn [bind] in H; [| congruence].
  cbv zeta in H. destruct (utf8_decode _); [discriminate |].
  destruct (nested _); discriminate.
Qed.

(** A decoded field starts at [pos], ends at the returned offset, and takes
    at least one byte. *)
Lemma decode_field_with_progress (buffer : bytes) (pos pos' : Z)
    (f : field_info) :
  decode_field_with nested buffer pos = Ok (f, pos') ->
  pos < pos' /\ Byte_Range f = (pos, pos').
Proof.
  unfold decode_field_with. intros H.
  step_bind H. destruct a as [[key p0] key_range].
  apply _decode_varint_Ok in E as (-> & Hp0 & Hkey).
  cbv zeta in H. step_bind H. destruct a as [[value p1] value_range].
  injection H as <- <-. cbn [Byte_Range fst snd].
  destruct (Z.land key 7 =? WIRE_TYPE_VARINT).
  { step_bind E. destruct a as [[v p2] r2]. step_bind E.
    injection E as <- <- <-.
    apply _decode_varint_Ok in E0 as (-> & Hp2 & _).
    cbn [snd]. split; [lia | reflexivity]. }
  destruct (Z.land key 7 =? WIRE_TYPE_64BIT).
  { step_bind E. step_bind E. injection E as <- <- <-.
    cbn [snd]. split; [lia | reflexivity]. }
  destruct (Z.land key 7 =? WIRE_TYPE_LENGTH_DELIMITED).
  { step_bind E. destruct a as [c p2]. injection E as <- <- <-.
    apply decode_length_delimited_with_Ok in E0
      as (length & q & Hv & -> & _).
    apply _decode_varint_Ok in Hv as (_ & Hq & Hlen).
    cbn [snd]. split; [lia | reflexivity]. }
  destruct (Z.land key 7 =? WIRE_TYPE_32BIT).
  { step_bind E. step_bind E. injection E as <- <- <-.
    cbn [snd]. split; [lia | reflexivity]. }
  discriminate.
Qed.

(** The exceptions a field can raise. *)
Lemma decode_field_with_Raise (buffer : bytes) (pos : Z) (e : exn) :
  decode_field_with nested buffer pos = Raise e ->
  e = IndexError \/ e = StructError \/
  exists wire_type, e = ValueError_wire_type wire_type.
Proof.
  unfold decode_field_with. intros H.
  destruct (_decode_varint buffer pos) as [[[key p0] key_range] |] eqn:E;
    cbn [bind] in H;
    [| injection H as <-; left; eapply _decode_varint_Raise, E].
  cbv zeta in H.
  match type of H with bind ?m _ = _ => destruct m as [[[v p1] r] |] eqn:B end;
    cbn [bind] in H; [discriminate |]. injection H as <-.
  destruct (Z.land key 7 =? WIRE_TYPE_VARINT).
  { destruct (_decode_varint buffer p0) as [[[v p1] r] |] eqn:V;
      cbn [bind] in B.
    - rewrite decode_varint_parts_eq in B. discriminate.
    - injection B as <-. left. eapply _decode_varint_Raise, V. }
  destruct (Z.land key 7 =? WIRE_TYPE_64BIT).
  { destruct (unpack_from_lt_Q buffer p0) as [v |] eqn:V; cbn [bind] in B.
    - rewrite decode_fixed64_eq in B
        by (eapply unpack_from_lt_Q_range, V). discriminate.
    - injection B as <-. unfold unpack_from_lt_Q in V.
      destruct (unpack_from_bytes 8 buffer p0) eqn:U; [discriminate |].
      injection V as <-. right; left. eapply unpack_from_bytes_Raise, U. }
  destruct (Z.land key 7 =? WIRE_TYPE_LENGTH_DELIMITED).
  { destruct (decode_length_delimited_with nested buffer p0)
      as [[c p1] |] eqn:V; cbn [bind] in B; [discriminate |].
    injection B as <-. apply decode_length_delimited_with_Raise in V.
    left. eapply _decode_varint_Raise, V. }
  destruct (Z.land key 7 =? WIRE_TYPE_32BIT).
  { destruct (unpack_from_lt_I buffer p0) as [v |] eqn:V; cbn [bind] in B.
    - rewrite decode_fixed32_eq in B
        by (eapply unpack_from_lt_I_range, V). discriminate.
    - injection B as <-. unfold unpack_from_lt_I in V.
      destruct (unpack_from_bytes 4 buffer p0) eqn:U; [discriminate |].
      injection V as <-. right; left. eapply unpack_from_bytes_Raise, U. }
  injection B as <-. right; right. eauto.
Qed.

(** The step budget is not an exception a field can raise. *)
Lemma decode_field_with_budget (buffer : bytes) (pos : Z) :
  decode_field_with nested buffer pos <> Raise BudgetExhausted.
Proof.
  intros H. apply decode_field_with_Raise in H as [H | [H | [w H]]];
    discriminate.
Qed.

End FieldDecoder.

(** The nested decoder is only ever called on a payload that is shorter than
    the buffer. *)
Lemma decode_length_delimited_with_ext
    (f g : bytes -> res (list field_info)) (buffer : bytes) (pos : Z) :
  (forall s, (length s < length buffer)%nat -> f s = g s) ->
  0 <= pos ->
  decode_length_delimited_with f buffer pos =
  decode_length_delimited_with g buffer pos.
Proof.
  intros Hfg Hpos. unfold decode_length_delimited_with.
  destruct (_decode_varint buffer pos) as [[[length p1] range] |] eqn:E;
    cbn [bind]; [| reflexivity].
  apply _decode_varint_Ok in E as (_ & Hp1 & _). cbv zeta.
  rewrite Hfg by (apply slice_shorter; lia). reflexivity.
Qed.

Lemma decode_field_with_ext
    (f g : bytes -> res (list field_info)) (buffer : bytes) (pos : Z) :
  (forall s, (length s < length buffer)%nat -> f s = g s) ->
  0 <= pos ->
  decode_field_with f buffer pos = decode_field_with g buffer pos.
Proof.
  intros Hfg Hpos. unfold decode_field_with.
  destruct (_decode_varint buffer pos) as [[[key p0] key_range] |] eqn:E;
    cbn [bind]; [| reflexivity].
  apply _decode_varint_Ok in E as (_ & Hp0 & _). cbv zeta.
  rewrite (decode_length_delimited_with_ext f g) by (assumption || lia).
  reflexivity.
Qed.

(** ** The message loop *)

Section MessageLoop.

Variables (decode : Z -> res (field_info * Z)) (length : Z).

Hypothesis decode_progress :
  forall pos pos' f, decode pos = Ok (f, pos') -> pos < pos'.

(** With room for the bytes that are left, the budget does not matter. *)
Lemma message_loop_budget (b1 : nat) :
  forall (b2 : nat) (pos : Z) (acc : list field_info),
  length <= pos + Z.of_nat b1 -> length <= pos + Z.of_nat b2 ->
  message_loop decode length b1 pos acc =
  message_loop decode length b2 pos acc.
Proof.
  induction b1 as [| b1 IH]; intros b2 pos acc H1 H2.
  - destruct b2; cbn [message_loop];
      destruct (pos <? length) eqn:E; bool_lia; reflexivity.
  - destruct b2; cbn [message_loop];
      destruct (pos <? length) eqn:E; bool_lia; try reflexivity.
    destruct (decode pos) as [[f pos'] |] eqn:D; cbn [bind];
      [| reflexivity].
    apply decode_progress in D. apply IH; lia.
Qed.

Hypothesis decode_budget : forall pos, decode pos <> Raise BudgetExhausted.

Lemma message_loop_total (b : nat) :
  forall (pos : Z) (acc : list field_info),
  length <= pos + Z.of_nat b ->
  message_loop decode length b pos acc <> Raise BudgetExhausted.
Proof.
  induction b as [| b IH]; intros pos acc H; cbn [message_loop];
    destruct (pos <? length) eqn:E; bool_lia; try discriminate.
  destruct (decode pos) as [[f pos'] |] eqn:D; cbn [bind].
  - apply decode_progress in D. apply IH. lia.
  - intros [= ->]. eapply decode_budget, D.
Qed.

(** Two field decoders that agree from offset 0 on give the same loop. *)
Lemma message_loop_ext (decode' : Z -> res (field_info * Z)) (b : nat) :
  (forall pos, 0 <= pos -> decode pos = decode' pos) ->
  forall (pos : Z) (acc : list field_info),
  0 <= pos ->
  message_loop decode length b pos acc =
  message_loop decode' length b pos acc.
Proof.
  intros Heq. induction b as [| b IH]; intros pos acc Hpos;
    cbn [message_loop]; [reflexivity |].
  destruct (pos <? length); [| reflexivity].
  rewrite <- Heq by exact Hpos.
  destruct (decode pos) as [[f pos'] |] eqn:D; cbn [bind]; [| reflexivity].
  apply decode_progress in D. apply IH. lia.
Qed.

End MessageLoop.

(** ** The nesting depth *)

Lemma decode_protobuf_depth_enough (d1 : nat) :
  forall (d2 : nat) (buffer : bytes),
  (length buffer < d1)%nat -> (length buffer < d2)%nat ->
  decode_protobuf_depth d1 buffer = decode_protobuf_depth d2 buffer.
Proof.
  induction d1 as [| d1 IH]; intros d2 buffer H1 H2; [lia |].
  destruct d2 as [| d2]; [lia |]. cbn [decode_protobuf_depth].
  apply message_loop_ext; [| | lia].
  - intros pos pos' f D.
    apply decode_field_with_progress in D. lia.
  - intros pos Hpos. apply decode_field_with_ext; [| exact Hpos].
    intros s Hs. apply IH; lia.
Qed.

Lemma decode_protobuf_depth_eq (d : nat) (buffer : bytes) :
  (length buffer < d)%nat ->
  decode_protobuf_depth d buffer = decode_protobuf buffer.
Proof.
  intros H. unfold decode_protobuf. apply decode_protobuf_depth_enough; lia.
Qed.

Lemma decode_field_progress (buffer : bytes) (pos pos' : Z) (f : field_info) :
  decode_field buffer pos = Ok (f, pos') ->
  pos < pos' /\ Byte_Range f = (pos, pos').
Proof. apply decode_field_with_progress. Qed.

(** ** The equations of the source *)

(** [decode_protobuf] starts the loop at offset 0 with an empty list. *)
Lemma decode_protobuf_eq (buffer : bytes) :
  decode_protobuf buffer = message_from buffer 0 [].
Proof.
  unfold decode_protobuf, message_from. cbn [decode_protobuf_depth].
  replace (Z.to_nat (len buffer - 0)) with (length buffer)
    by (unfold len; lia).
  apply message_loop_ext; [| | lia].
  - intros pos pos' f D. apply decode_field_with_progress in D. lia.
  - intros pos Hpos. apply decode_field_with_ext; [| exact Hpos].
    intros s Hs. apply decode_protobuf_depth_eq. lia.
Qed.

(** One round of the [while] loop. *)
Lemma message_from_eq (buffer : bytes) (pos : Z) (acc : list field_info) :
  message_from buffer pos acc =
  if pos <? len buffer then
    '(field_info, pos) <- decode_field buffer pos ;;
    message_from buffer pos (acc ++ [field_info])
  else Ok acc.
Proof.
  unfold message_from.
  destruct (Z.to_nat (len buffer - pos)) as [| n] eqn:E; cbn [message_loop].
  - destruct (pos <? len buffer) eqn:L; bool_lia. reflexivity.
  - destruct (pos <? len buffer); [| reflexivity].
    destruct (decode_field buffer pos) as [[f pos'] |] eqn:D; cbn [bind];
      [| reflexivity].
    apply decode_field_progress in D as [D _].
    apply message_loop_budget; [| lia | lia].
    intros p p' g G. apply decode_field_progress in G. lia.
Qed.

(** The step budget is never reached. *)
Lemma decode_protobuf_budget (buffer : bytes) :
  decode_protobuf buffer <> Raise BudgetExhausted.
Proof.
  rewrite decode_protobuf_eq. unfold message_from.
  apply message_loop_total; [| | lia].
  - intros p p' g G. apply decode_field_progress in G. lia.
  - intros p. apply decode_field_with_budget.
Qed.

(** ** Byte Cursor *)

Lemma varint_at_tail (buffer : bytes) (pos byte last : Z) (more : list Z) :
  varint_at buffer pos (byte :: more) last ->
  getitem buffer pos = Ok byte /\ Z.land byte 0x80 <> 0 /\
  varint_at buffer (pos + 1) more last.
Proof.
  intros (Hpos & Hmore & Hlast & Hbit).
  destruct (Hmore 0%nat ltac:(cbn; lia)) as [H0 H0'].
  cbn [nth] in H0, H0'. rewrite Z.add_0_r in H0.
  repeat split; try assumption; try lia.
  - destruct (Hmore (S i) ltac:(cbn [length]; lia)) as [Hi _].
    cbn [nth] in Hi. rewrite <- Hi. f_equal. lia.
  - destruct (Hmore (S i) ltac:(cbn [length]; lia)) as [_ Hi].
    exact Hi.
  - rewrite <- Hlast. f_equal. cbn [length]. lia.
Qed.

Lemma varint_from_leb128 (more : list Z) :
  forall (buffer : bytes) (pos shift result last : Z),
  varint_at buffer pos more last ->
  varint_from buffer pos shift result =
  Ok (Z.lor result (leb128 shift (more ++ [last])),
      pos + Z.of_nat (length more) + 1).
Proof.
  induction more as [| byte more IH]; intros buffer pos shift result last H;
    rewrite varint_from_eq.
  - destruct H as (_ & _ & Hlast & Hbit). cbn [length] in Hlast.
    rewrite Z.add_0_r in Hlast. rewrite Hlast. cbn [bind]. cbv zeta.
    rewrite Hbit. cbn [Z.eqb app leb128 length]. rewrite Z.lor_0_r.
    do 2 f_equal. lia.
  - apply varint_at_tail in H as (Hb & Hbit & Htail).
    rewrite Hb. cbn [bind]. cbv zeta.
    destruct (Z.eqb_spec (Z.land byte 128) 0) as [Hz | _]; [contradiction |].
    rewrite (IH _ _ _ _ _ Htail). cbn [app leb128 length].
    rewrite Z.lor_assoc. do 2 f_equal. lia.
Qed.

(** [_decode_varint] reads a well-formed varint as the specification says
    and stops just past it. *)
Lemma _decode_varint_leb128 (buffer : bytes) (pos last : Z) (more : list Z) :
  varint_at buffer pos more last ->
  _decode_varint buffer pos =
  Ok (leb128 0 (more ++ [last]), pos + Z.of_nat (length more) + 1,
      (pos, pos + Z.of_nat (length more) + 1)).
Proof.
  intros H. unfold _decode_varint.
  rewrite (varint_from_leb128 _ _ _ _ _ _ H). cbn [bind].
  rewrite Z.lor_0_l. reflexivity.
Qed.

(** The tuple assignment of [read_varint] has two targets for three values,
    so a varint that decodes never reaches the caller. *)
Lemma read_varint_eq (self : BufferReader.t) :
  BufferReader.read_varint self =
  match _decode_varint (BufferReader.buffer self) (BufferReader.offset self) with
  | Ok _ => Raise (ValueError_unpack 2)
  | Raise e => Raise e
  end.
Proof.
  unfold BufferReader.read_varint.
  destruct (_decode_varint _ _) as [[[result pos] [start_pos end_pos]] |];
    reflexivity.
Qed.

(** With the cursor inside the buffer, [try_skip_grpc_header] does what the
    specification says. *)
Lemma try_skip_grpc_header_inside (self : BufferReader.t) (current : Z) :
  getitem (BufferReader.buffer self) (BufferReader.offset self) = Ok current ->
  0 <= BufferReader.offset self ->
  exists self',
    BufferReader.try_skip_grpc_header self = Ok self' /\
    BufferReader.buffer self' = BufferReader.buffer self /\
    BufferReader.saved_offset self' = BufferReader.saved_offset self /\
    (BufferReader.offset self' = BufferReader.offset self + 5 \/
     BufferReader.offset self' = BufferReader.offset self) /\
    (BufferReader.offset self' = BufferReader.offset self + 5 <->
     current = 0 /\ 5 <= BufferReader.left_bytes self /\
     exists length,
       unpack_from_gt_I (BufferReader.buffer self)
         (BufferReader.offset self + 1) = Ok length /\
       length <= BufferReader.left_bytes self - 5).
Proof.
  intros Hc Hoff. unfold BufferReader.try_skip_grpc_header. rewrite Hc.
  cbn [bind]. destruct self as [buffer offset saved].
  unfold BufferReader.left_bytes, BufferReader.set_offset.
  cbn [BufferReader.buffer BufferReader.offset BufferReader.saved_offset]
    in *.
  destruct (current =? 0) eqn:E0; cbn [andb].
  2:{ eexists; split; [reflexivity |].
      cbn [BufferReader.buffer BufferReader.offset BufferReader.saved_offset].
      repeat split; auto; intros; bool_lia. }
  destruct (5 <=? len buffer - offset) eqn:E5.
  2:{ eexists; split; [reflexivity |].
      cbn [BufferReader.buffer BufferReader.offset BufferReader.saved_offset].
      repeat split; auto; intros; bool_lia. }
  assert (exists length, unpack_from_gt_I buffer (offset + 1) = Ok length)
    as [length Hl].
  { unfold unpack_from_gt_I, unpack_from_bytes.
    destruct (offset + 1 <? 0) eqn:N; [bool_lia |].
    destruct (offset + 1 <? 0) eqn:N' in |- *; [bool_lia |].
    destruct (len buffer - (offset + 1) <? Z.of_nat 4) eqn:S4; [bool_lia |].
    cbn [bind]. eauto. }
  rewrite Hl. cbn [bind].
  destruct (len buffer - (offset + 1 + 4) <? length) eqn:L;
    (eexists; split; [reflexivity |]);
    cbn [BufferReader.buffer BufferReader.offset BufferReader.saved_offset];
    repeat split; auto; try (intros; bool_lia).
  - destruct H as (_ & _ & length' & Hl' & Hle).
    injection Hl' as <-. lia.
  - exists length. split; [reflexivity | lia].
Qed.

(** With the cursor at the end of the buffer (an empty buffer is the first
    case), the first test of [try_skip_grpc_header] indexes past the end. *)
Lemma try_skip_grpc_header_at_end (self : BufferReader.t) :
  len (BufferReader.buffer self) <= BufferReader.offset self ->
  BufferReader.try_skip_grpc_header self = Raise IndexError.
Proof.
  intros H. unfold BufferReader.try_skip_grpc_header.
  rewrite getitem_past_end by exact H. reflexivity.
Qed.

(** ** The cursor and the scalars *)

(** C9: [read_varint] never returns the decoded value.  [_decode_varint]
    hands back three values, the assignment [value, self.offset = ...] takes
    two, so every varint that decodes ends in a [ValueError] and the offset
    is never advanced; the only other outcome is the [IndexError] of a
    varint that leaves the buffer.  On the bytes [96 01] the static decoder
    finds 150 and the offset 2, and [read_varint] raises. *)
Theorem C9_read_varint_raises :
  (forall self : BufferReader.t,
     BufferReader.read_varint self =
     match _decode_varint (BufferReader.buffer self)
             (BufferReader.offset self) with
     | Ok _ => Raise (ValueError_unpack 2)
     | Raise e => Raise e
     end) /\
  _decode_varint [x96; x01] 0 = Ok (150, 2, (0, 2)) /\
  BufferReader.read_varint (BufferReader.__init__ [x96; x01]) =
  Raise (ValueError_unpack 2).
Proof.
  split; [exact read_varint_eq |]. split; vm_compute; reflexivity.
Qed.

(** C8: [try_skip_grpc_header] does fail: on an empty buffer, and with the
    cursor at the end of a buffer, the test [self.buffer[self.offset] == 0]
    runs before [self.left_bytes() >= 5] and raises [IndexError]. *)
Theorem C8_try_skip_grpc_header_raises :
  BufferReader.try_skip_grpc_header (BufferReader.__init__ []) =
  Raise IndexError /\
  BufferReader.try_skip_grpc_header (BufferReader.Build [x00; x08] 2 0) =
  Raise IndexError.
Proof.
  split; apply try_skip_grpc_header_at_end; vm_compute; discriminate.
Qed.

(** C3: the candidates of a varint value [V] are the "uint" candidate [V]
    followed by those of "int32" (two's complement of the low 32 bits),
    "int64" (two's complement of the low 64 bits) and "sint" (zig-zag), in
    this order, each kept exactly when its value differs from [V]. *)
Theorem C3_varint_candidates (V : Z) :
  exists rest : list candidate,
    decode_varint_parts V = Ok (Candidate "uint" (IntValue V) :: rest) /\
    rest = filter (differs_from V)
             [Candidate "int32" (IntValue (twos_complement 32 V));
              Candidate "int64" (IntValue (twos_complement 64 V));
              Candidate "sint" (IntValue (zigzag V))] /\
    (forall x, In (Candidate "int32" (IntValue x)) rest <->
               x = twos_complement 32 V /\ x <> V) /\
    (forall x, In (Candidate "int64" (IntValue x)) rest <->
               x = twos_complement 64 V /\ x <> V) /\
    (forall x, In (Candidate "sint" (IntValue x)) rest <->
               x = zigzag V /\ x <> V).
Proof.
  eexists. split; [apply decode_varint_parts_eq |].
  split; [reflexivity |].
  split; [| split]; solve_candidate_iff.
Qed.

(** C10: a raw fixed32 value gives the two candidates "float" (the IEEE-754
    single the four bytes denote) and "int" (the raw value), a raw fixed64
    value gives "double" and "int", always both and in this order. *)
Theorem C10_fixed_candidates (v32 v64 : Z) :
  0 <= v32 < 2 ^ 32 ->
  0 <= v64 < 2 ^ 64 ->
  decode_fixed32 v32 =
  Ok [Candidate "float" (FloatValue (ieee_of_bits 23 8 v32));
      Candidate "int" (IntValue v32)] /\
  decode_fixed64 v64 =
  Ok [Candidate "double" (FloatValue (ieee_of_bits 52 11 v64));
      Candidate "int" (IntValue v64)].
Proof.
  intros H32 H64. split; [apply decode_fixed32_eq | apply decode_fixed64_eq];
    assumption.
Qed.

(** The raw value 0 is the float 0.0 and the integer 0: both are listed. *)
Lemma C10_fixed_candidates_witness :
  (0 <= 0 < 2 ^ 32 /\ 0 <= 0 < 2 ^ 64) /\
  decode_fixed32 0 =
  Ok [Candidate "float" (FloatValue (S754_zero false));
      Candidate "int" (IntValue 0)] /\
  decode_fixed64 0 =
  Ok [Candidate "double" (FloatValue (S754_zero false));
      Candidate "int" (IntValue 0)].
Proof.
  split; [lia |]. apply (C10_fixed_candidates 0 0); lia.
Defined.

(** ** The record of one field *)

(** The hex dump of a record is cut before the payload is read: it covers
    the tag varint and nothing else. *)
Lemma Original_Hex_is_tag (nested : bytes -> res (list field_info))
    (buffer : bytes) (pos pos' : Z) (f : field_info) :
  decode_field_with nested buffer pos = Ok (f, pos') ->
  exists key p0,
    _decode_varint buffer pos = Ok (key, p0, (pos, p0)) /\
    Original_Hex f = buffer_to_pretty_hex (slice buffer pos p0).
Proof.
  unfold decode_field_with. intros H.
  step_bind H. destruct a as [[key p0] key_range].
  destruct (_decode_varint_Ok _ _ _ _ _ E) as (-> & _ & _).
  cbv zeta in H. step_bind H. destruct a as [[value p1] value_range].
  injection H as <- <-. exists key, p0. split; reflexivity.
Qed.

(** C4: the "Original Hex" of a record is not the dump of the span the
    field occupies.  The field [08 96 01] has the byte range (0, 3), its
    bytes are "08 96 01", and its "Original Hex" is "08", the tag alone:
    [original_value] is sliced up to [pos] before the payload is read. *)
Theorem C4_original_hex_is_tag_only :
  exists f : field_info,
    decode_field [x08; x96; x01] 0 = Ok (f, 3) /\
    Byte_Range f = (0, 3) /\
    buffer_to_pretty_hex (slice [x08; x96; x01] 0 3) = "08 96 01"%string /\
    Original_Hex f = "08"%string.
Proof.
  eexists. split; [vm_compute; reflexivity |].
  repeat split.
Qed.

(** C1: a declared length beyond the end of the buffer is not an error.  In
    [12 05 41] the length varint says 5 and one byte is left; the slice
    takes that byte, the offset jumps to 7, and [decode_protobuf] returns a
    record whose byte range ends past the buffer. *)
Theorem C1_truncated_payload_is_accepted :
  _decode_varint [x12; x05; x41] 1 = Ok (5, 2, (1, 2)) /\
  len [x12; x05; x41] - 2 = 1 /\
  decode_protobuf [x12; x05; x41] =
  Ok [FieldInfo (0, 7) 2 "length_delimited" "12" (Content_string [65] "41")].
Proof.
  repeat split; vm_compute; reflexivity.
Qed.

(** C2: a payload that is valid UTF-8 is classified as a string, with the
    decoded text and the hex dump of the payload; the nested decoder has no
    part in the result, whatever it would answer. *)
Theorem C2_valid_utf8_is_string
    (nested : bytes -> res (list field_info))
    (buffer : bytes) (pos length p1 : Z) (s : pystr) :
  _decode_varint buffer pos = Ok (length, p1, (pos, p1)) ->
  utf8_decode (slice buffer p1 (p1 + length)) = Some s ->
  decode_length_delimited buffer pos =
  Ok (Content_string s
        (buffer_to_pretty_hex (slice buffer p1 (p1 + length))),
      p1 + length) /\
  decode_length_delimited_with nested buffer pos =
  decode_length_delimited buffer pos.
Proof.
  intros Hv Hs.
  unfold decode_length_delimited, decode_length_delimited_with, decode_utf8.
  rewrite Hv. cbn [bind]. cbv zeta. rewrite Hs. split; reflexivity.
Qed.

(** The payload [08 01] is the text of two control characters and also the
    message "field 1 = 1"; it is reported as a string. *)
Lemma C2_valid_utf8_is_string_witness :
  (_decode_varint [x02; x08; x01] 0 = Ok (2, 1, (0, 1)) /\
   utf8_decode (slice [x02; x08; x01] 1 (1 + 2)) = Some [8; 1]) /\
  decode_length_delimited [x02; x08; x01] 0 =
  Ok (Content_string [8; 1]
        (buffer_to_pretty_hex (slice [x02; x08; x01] 1 (1 + 2))), 1 + 2) /\
  decode_length_delimited_with decode_protobuf [x02; x08; x01] 0 =
  decode_length_delimited [x02; x08; x01] 0.
Proof.
  split; [split; vm_compute; reflexivity |].
  apply (C2_valid_utf8_is_string decode_protobuf [x02; x08; x01] 0 2 1 [8; 1]);
    vm_compute; reflexivity.
Defined.

(** C6: a payload that is neither valid UTF-8 nor a message is classified
    as bytes, with the hex dump of the payload as value and as hex; and once
    the length prefix is read the classifier returns a classification
    whatever the UTF-8 decoder and the nested decoder raise. *)
Theorem C6_fallback_is_bytes
    (buffer : bytes) (pos length p1 : Z) (e : exn) :
  _decode_varint buffer pos = Ok (length, p1, (pos, p1)) ->
  utf8_decode (slice buffer p1 (p1 + length)) = None ->
  decode_protobuf (slice buffer p1 (p1 + length)) = Raise e ->
  decode_length_delimited buffer pos =
  Ok (Content_bytes
        (buffer_to_pretty_hex (slice buffer p1 (p1 + length)))
        (buffer_to_pretty_hex (slice buffer p1 (p1 + length))),
      p1 + length) /\
  (forall nested : bytes -> res (list field_info),
     exists c, decode_length_delimited_with nested buffer pos =
               Ok (c, p1 + length)).
Proof.
  intros Hv Hs Hn. split.
  - unfold decode_length_delimited, decode_length_delimited_with,
      decode_utf8.
    rewrite Hv. cbn [bind]. cbv zeta. rewrite Hs, Hn. reflexivity.
  - intros nested. unfold decode_length_delimited_with, decode_utf8.
    rewrite Hv. cbn [bind]. cbv zeta. rewrite Hs.
    destruct (nested _); eauto.
Qed.

(** The payload [ff ff] is not UTF-8, and as a message its tag runs off the
    end. *)
Lemma C6_fallback_is_bytes_witness :
  (_decode_varint [x02; xff; xff] 0 = Ok (2, 1, (0, 1)) /\
   utf8_decode (slice [x02; xff; xff] 1 (1 + 2)) = None /\
   decode_protobuf (slice [x02; xff; xff] 1 (1 + 2)) = Raise IndexError) /\
  decode_length_delimited [x02; xff; xff] 0 =
  Ok (Content_bytes
        (buffer_to_pretty_hex (slice [x02; xff; xff] 1 (1 + 2)))
        (buffer_to_pretty_hex (slice [x02; xff; xff] 1 (1 + 2))), 1 + 2) /\
  (forall nested : bytes -> res (list field_info),
     exists c, decode_length_delimited_with nested [x02; xff; xff] 0 =
               Ok (c, 1 + 2)).
Proof.
  split; [repeat split; vm_compute; reflexivity |].
  apply (C6_fallback_is_bytes [x02; xff; xff] 0 2 1 IndexError);
    vm_compute; reflexivity.
Defined.

(** ** A whole message *)

(** Where a nested message in a record comes from. *)
Lemma decode_field_with_nested (nested : bytes -> res (list field_info))
    (buffer : bytes) (pos pos' : Z) (f : field_info)
    (value : list field_info) (hex : string) :
  decode_field_with nested buffer pos = Ok (f, pos') ->
  Content f = Content_protobuf value hex ->
  0 <= pos ->
  exists p,
    pos < p /\ 1 < p <= len buffer /\
    hex = buffer_to_pretty_hex (slice buffer p pos') /\
    nested (slice buffer p pos') = Ok value.
Proof.
  unfold decode_field_with. intros H Hc Hpos.
  step_bind H. destruct a as [[key p0] key_range].
  apply _decode_varint_Ok in E as (-> & Hp0 & Hkey).
  cbv zeta in H. step_bind H. destruct a as [[c p1] value_range].
  injection H as <- <-. cbn [Content] in Hc. subst c.
  destruct (Z.land key 7 =? WIRE_TYPE_VARINT).
  { step_bind E. destruct a as [[v p2] r2]. step_bind E. discriminate. }
  destruct (Z.land key 7 =? WIRE_TYPE_64BIT).
  { step_bind E. step_bind E. discriminate. }
  destruct (Z.land key 7 =? WIRE_TYPE_LENGTH_DELIMITED).
  { step_bind E. destruct a as [c p2]. injection E as -> <- <-.
    apply decode_length_delimited_with_Ok in E0
      as (length & q & Hv & -> & Hclass).
    apply _decode_varint_Ok in Hv as (_ & Hq & Hlen).
    cbv zeta in Hclass. exists q. split; [lia |]. split; [lia |].
    destruct (utf8_decode _); [discriminate |].
    destruct (nested _); [| discriminate].
    injection Hclass as <- <-. split; reflexivity. }
  destruct (Z.land key 7 =? WIRE_TYPE_32BIT).
  { step_bind E. step_bind E. discriminate. }
  discriminate.
Qed.

(** What holds of every field decoded from offset 0 on holds of every record
    of the message. *)
Lemma message_from_Forall (buffer : bytes) (Q : field_info -> Prop) :
  (forall pos pos' f,
     0 <= pos -> decode_field buffer pos = Ok (f, pos') -> Q f) ->
  forall (n : nat) (pos : Z) (acc records : list field_info),
  (Z.to_nat (len buffer - pos) <= n)%nat ->
  0 <= pos ->
  Forall Q acc ->
  message_from buffer pos acc = Ok records ->
  Forall Q records.
Proof.
  intros HQ. induction n as [| n IH]; intros pos acc records Hn Hpos Hacc H;
    rewrite message_from_eq in H.
  - destruct (pos <? len buffer) eqn:L; bool_lia. now injection H as <-.
  - destruct (pos <? len buffer) eqn:L; [| now injection H as <-].
    step_bind H. destruct a as [f pos'].
    pose proof (decode_field_progress _ _ _ _ E) as [Hlt _].
    apply (IH pos' (acc ++ [f]) records); try lia; try assumption.
    apply Forall_app. split; [assumption |].
    constructor; [eapply HQ; eassumption | constructor].
Qed.

Lemma located_records (n : nat) :
  forall (buffer : bytes) (records : list field_info),
  (length buffer < n)%nat ->
  decode_protobuf buffer = Ok records ->
  Forall (located_tree buffer) records.
Proof.
  induction n as [| n IH]; intros buffer records Hn H; [lia |].
  rewrite decode_protobuf_eq in H.
  apply (message_from_Forall buffer (located_tree buffer))
    with (n := length buffer) (pos := 0) (acc := []); try assumption;
    [| unfold len; lia | lia | constructor].
  intros pos pos' f Hpos D.
  pose proof (decode_field_progress _ _ _ _ D) as [Hlt Hrange].
  constructor.
  - unfold located_in. rewrite Hrange. exact D.
  - intros value hex Hc. rewrite Hrange. cbn [fst snd].
    destruct (decode_field_with_nested _ _ _ _ _ _ _ D Hc Hpos)
      as (p & Hp & Hp' & Hhex & Hnested).
    exists p. split; [exact Hp |]. split; [exact Hhex |].
    apply IH; [| exact Hnested].
    pose proof (slice_shorter buffer p pos' ltac:(lia)). lia.
Qed.

(** C5, as the code has it: the byte range of a record denotes offsets into
    the buffer that the [decode_protobuf] call which produced it was given.
    For the records of the list that is returned, that is the input buffer;
    for the records of a nested message it is the payload of the enclosing
    field, where the offsets start again at 0. *)
Theorem C5_ranges_are_relative_to_the_decoded_buffer
    (buffer : bytes) (records : list field_info) :
  decode_protobuf buffer = Ok records ->
  Forall (located_tree buffer) records.
Proof.
  apply (located_records (S (length buffer))). lia.
Qed.

Lemma C5_ranges_are_relative_to_the_decoded_buffer_witness :
  decode_protobuf [x0a; x03; x08; x96; x01] =
  Ok [FieldInfo (0, 5) 1 "length_delimited" "0a"
        (Content_protobuf
           [FieldInfo (0, 3) 1 "varint" "08"
              (Content_candidates
                 [Candidate "uint" (IntValue 150);
                  Candidate "sint" (IntValue 75)])]
           "08 96 01")] /\
  Forall (located_tree [x0a; x03; x08; x96; x01])
    [FieldInfo (0, 5) 1 "length_delimited" "0a"
        (Content_protobuf
           [FieldInfo (0, 3) 1 "varint" "08"
              (Content_candidates
                 [Candidate "uint" (IntValue 150);
                  Candidate "sint" (IntValue 75)])]
           "08 96 01")].
Proof.
  split; [vm_compute; reflexivity |].
  apply (C5_ranges_are_relative_to_the_decoded_buffer
           [x0a; x03; x08; x96; x01]).
  vm_compute. reflexivity.
Defined.

(** C5 as it is stated fails for a nested record.  In [0a 03 08 96 01] the
    nested field [08 96 01] lies at the offsets 2 to 5 of the input, and its
    record carries the range (0, 3), which is right for the payload and
    wrong for the input. *)
Lemma C5_nested_range_is_not_in_the_input :
  exists top nested_record : field_info,
    decode_protobuf [x0a; x03; x08; x96; x01] = Ok [top] /\
    In nested_record (records_of top) /\
    Byte_Range nested_record = (0, 3) /\
    slice [x0a; x03; x08; x96; x01] 2 5 = [x08; x96; x01] /\
    located_in [x08; x96; x01] nested_record /\
    ~ located_in [x0a; x03; x08; x96; x01] nested_record.
Proof.
  eexists. eexists. split; [vm_compute; reflexivity |].
  split; [cbn; right; left; reflexivity |].
  split; [reflexivity |]. split; [reflexivity |].
  split; [vm_compute; reflexivity |].
  unfold located_in. vm_compute. discriminate.
Qed.

(** A tag with a wire type outside 0, 1, 2, 5 makes [decode_field] raise, at
    any offset of any buffer. *)
Lemma decode_field_unsupported (nested : bytes -> res (list field_info))
    (buffer : bytes) (pos key p0 : Z) :
  _decode_varint buffer pos = Ok (key, p0, (pos, p0)) ->
  unsupported (Z.land key 0x07) ->
  decode_field_with nested buffer pos =
  Raise (ValueError_wire_type (Z.land key 0x07)).
Proof.
  intros Hv (H0 & H1 & H2 & H5). unfold decode_field_with.
  rewrite Hv. cbn [bind]. cbv zeta.
  destruct (Z.eqb_spec (Z.land key 7) WIRE_TYPE_VARINT); [contradiction |].
  destruct (Z.eqb_spec (Z.land key 7) WIRE_TYPE_64BIT); [contradiction |].
  destruct (Z.eqb_spec (Z.land key 7) WIRE_TYPE_LENGTH_DELIMITED);
    [contradiction |].
  destruct (Z.eqb_spec (Z.land key 7) WIRE_TYPE_32BIT); [contradiction |].
  reflexivity.
Qed.

(** At the start of a field, the loop of [decode_protobuf] is about to run
    from there. *)
Lemma field_start_message (buffer : bytes) (pos : Z) :
  field_start buffer pos ->
  0 <= pos /\
  exists acc, decode_protobuf buffer = message_from buffer pos acc.
Proof.
  induction 1 as [| pos pos' f Hs [Hpos [acc IH]] Hlt D].
  - split; [lia |]. exists []. apply decode_protobuf_eq.
  - pose proof (decode_field_progress _ _ _ _ D) as [Hp _].
    split; [lia |]. exists (acc ++ [f]). rewrite IH, message_from_eq.
    destruct (pos <? len buffer) eqn:L; [| bool_lia].
    rewrite D. reflexivity.
Qed.

(** C7, as the code has it: where the loop of a [decode_protobuf] call
    starts a field whose tag has a wire type other than 0, 1, 2 and 5, the
    field decoder raises the wire-type [ValueError], and that call raises it
    too and returns no list. *)
Theorem C7_unsupported_wire_type_aborts_the_call
    (buffer : bytes) (pos key p0 : Z) :
  field_start buffer pos ->
  _decode_varint buffer pos = Ok (key, p0, (pos, p0)) ->
  unsupported (Z.land key 0x07) ->
  decode_field buffer pos = Raise (ValueError_wire_type (Z.land key 0x07)) /\
  decode_protobuf buffer = Raise (ValueError_wire_type (Z.land key 0x07)).
Proof.
  intros Hs Hv Hu.
  pose proof (decode_field_unsupported decode_protobuf _ _ _ _ Hv Hu) as D.
  fold (decode_field buffer pos) in D. split; [exact D |].
  destruct (field_start_message _ _ Hs) as [Hpos [acc ->]].
  apply _decode_varint_Ok in Hv as (_ & Hp0 & _).
  rewrite message_from_eq.
  destruct (pos <? len buffer) eqn:L; [| bool_lia].
  rewrite D. reflexivity.
Qed.

Lemma field_start_after_first (buffer : bytes) (f : field_info) (pos' : Z) :
  0 < len buffer ->
  decode_field buffer 0 = Ok (f, pos') ->
  field_start buffer pos'.
Proof.
  intros Hlen D. eapply field_start_next; [constructor | exact Hlen | exact D].
Qed.

(** In [08 01 0b] the second field starts at offset 2 with the tag 0x0b,
    wire type 3. *)
Lemma C7_unsupported_wire_type_aborts_the_call_witness :
  (field_start [x08; x01; x0b] 2 /\
   _decode_varint [x08; x01; x0b] 2 = Ok (11, 3, (2, 3)) /\
   unsupported (Z.land 11 0x07)) /\
  decode_field [x08; x01; x0b] 2 = Raise (ValueError_wire_type 3) /\
  decode_protobuf [x08; x01; x0b] = Raise (ValueError_wire_type 3).
Proof.
  assert (Hs : field_start [x08; x01; x0b] 2).
  { eapply field_start_after_first; vm_compute; reflexivity. }
  assert (Hu : unsupported (Z.land 11 0x07)).
  { repeat split; vm_compute; discriminate. }
  split; [split; [exact Hs | split; [vm_compute; reflexivity | exact Hu]] |].
  apply (C7_unsupported_wire_type_aborts_the_call [x08; x01; x0b] 2 11 3);
    [exact Hs | vm_compute; reflexivity | exact Hu].
Defined.

(** C7 as it is stated fails inside a payload.  While [0a 02 ff 03] is
    decoded, the nested attempt on the payload [ff 03] decodes the tag
    0x1ff, wire type 7, and the field decoder raises; [except Exception]
    in [decode_length_delimited] catches it, the payload becomes bytes, and
    the decode of the input returns its list. *)
Lemma C7_nested_wire_type_error_is_caught :
  tag_decoded [x0a; x02; xff; x03] [xff; x03] 0 /\
  _decode_varint [xff; x03] 0 = Ok (511, 2, (0, 2)) /\
  Z.land 511 0x07 = 7 /\
  unsupported 7 /\
  decode_field [xff; x03] 0 = Raise (ValueError_wire_type 7) /\
  decode_protobuf [x0a; x02; xff; x03] =
  Ok [FieldInfo (0, 4) 1 "length_delimited" "0a"
        (Content_bytes "ff 03" "ff 03")].
Proof.
  split.
  { change [xff; x03] with (slice [x0a; x02; xff; x03] 2 (2 + 2)).
    apply (tag_decoded_nested _ [x0a; x02; xff; x03] 0 10 1 2 2 0);
      try (vm_compute; reflexivity).
    - apply tag_decoded_top; [constructor | reflexivity].
    - constructor. }
  repeat split; try (vm_compute; reflexivity); vm_compute; discriminate.
Qed.

(** ** The decoder on small inputs *)

Example decode_varint_field :
  decode_protobuf [x08; x96; x01] =
  Ok [FieldInfo (0, 3) 1 "varint" "08"
        (Content_candidates
           [Candidate "uint" (IntValue 150);
            Candidate "sint" (IntValue 75)])].
Proof. vm_compute. reflexivity. Qed.

Example decode_string_field :
  decode_protobuf [x12; x07; x74; x65; x73; x74; x69; x6e; x67] =
  Ok [FieldInfo (0, 9) 2 "length_delimited" "12"
        (Content_string [116; 101; 115; 116; 105; 110; 103]
           "74 65 73 74 69 6e 67")].
Proof. vm_compute. reflexivity. Qed.

Example decode_empty_buffer : decode_protobuf [] = Ok [].
Proof. reflexivity. Qed.

Example decode_truncated_fixed32 :
  decode_protobuf [x0d; x00; x00] = Raise StructError.
Proof. vm_compute. reflexivity. Qed.

Example decode_truncated_tag : decode_protobuf [x88] = Raise IndexError.
Proof. vm_compute. reflexivity. Qed.

Example utf8_decode_samples :
  utf8_decode [xc3; xa9] = Some [233] /\
  utf8_decode [xe2; x82; xac] = Some [8364] /\
  utf8_decode [xf0; x9f; x98; x80] = Some [128512] /\
  utf8_decode [xc0; x80] = None /\
  utf8_decode [xed; xa0; x80] = None /\
  utf8_decode [xf4; x90; x80; x80] = None /\
  utf8_decode [x96] = None.
Proof. repeat split; vm_compute; reflexivity. Qed.

Example grpc_header_skipped :
  BufferReader.try_skip_grpc_header
    (BufferReader.__init__ [x00; x00; x00; x00; x03; x08; x96; x01]) =
  Ok (BufferReader.Build [x00; x00; x00; x00; x03; x08; x96; x01] 5 0).
Proof. vm_compute. reflexivity. Qed.

Example grpc_header_rolled_back :
  BufferReader.try_skip_grpc_header
    (BufferReader.__init__ [x00; x00; x00; x00; xff]) =
  Ok (BufferReader.Build [x00; x00; x00; x00; xff] 0 0).
Proof. vm_compute. reflexivity. Qed.

Example byte_range_text :
  Byte_Range_str
    (FieldInfo (0, 13) 1 "varint" "08" (Content_candidates [])) =
  "0-13"%string.
Proof. vm_compute. reflexivity. Qed.

(** * Further properties of the code *)

(** ** Slices inside the buffer *)

Lemma slice_inside (buffer : bytes) (a n : Z) :
  0 <= a -> 0 <= n -> a + n <= len buffer ->
  slice buffer a (a + n) =
  firstn (Z.to_nat n) (skipn (Z.to_nat a) buffer).
Proof.
  intros Ha Hn Hlen. unfold slice. cbv zeta.
  rewrite !clamp_inside by lia. do 2 f_equal. lia.
Qed.

Lemma slice_inside_length (buffer : bytes) (a n : Z) :
  0 <= a -> 0 <= n -> a + n <= len buffer ->
  len (slice buffer a (a + n)) = n.
Proof.
  intros Ha Hn Hlen. rewrite slice_inside by assumption.
  unfold len in *. rewrite length_firstn, length_skipn. lia.
Qed.

Lemma getitem_slice (buffer : bytes) (a n i : Z) :
  0 <= a -> a + n <= len buffer -> 0 <= i < n ->
  getitem (slice buffer a (a + n)) i = getitem buffer (a + i).
Proof.
  intros Ha Hlen Hi.
  pose proof (slice_inside_length buffer a n ltac:(lia) ltac:(lia) Hlen) as L.
  destruct (getitem_nth (slice buffer a (a + n)) i ltac:(lia))
    as (b & Hb & ->).
  destruct (getitem_nth buffer (a + i) ltac:(lia)) as (b' & Hb' & ->).
  rewrite slice_inside in Hb by lia.
  rewrite nth_error_firstn, nth_error_skipn in Hb.
  destruct (Nat.ltb_spec (Z.to_nat i) (Z.to_nat n)); [| lia].
  replace (Z.to_nat a + Z.to_nat i)%nat with (Z.to_nat (a + i)) in Hb by lia.
  congruence.
Qed.

(** ** [_decode_varint] *)

Lemma lor_below (a b n : Z) :
  0 <= n -> 0 <= a < 2 ^ n -> 0 <= b < 2 ^ n -> 0 <= Z.lor a b < 2 ^ n.
Proof.
  intros Hn Ha Hb. split; [apply Z.lor_nonneg; lia |].
  destruct (Z.eq_dec a 0) as [-> | Na]; [rewrite Z.lor_0_l; lia |].
  destruct (Z.eq_dec b 0) as [-> | Nb]; [rewrite Z.lor_0_r; lia |].
  assert (Hpos : 0 < Z.lor a b).
  { pose proof (proj2 (Z.lor_nonneg a b) ltac:(lia)).
    destruct (Z.eq_dec (Z.lor a b) 0) as [E | E]; [| lia].
    apply Z.lor_eq_0_iff in E. lia. }
  apply Z.log2_lt_pow2; [exact Hpos |].
  rewrite Z.log2_lor by lia.
  apply Z.max_lub_lt; apply Z.log2_lt_pow2; lia.
Qed.

Lemma varint_loop_bound (budget : nat) :
  forall (buffer : bytes) (pos shift result v pos' : Z),
  varint_loop budget buffer pos shift result = Ok (v, pos') ->
  0 <= shift -> 0 <= result < 2 ^ shift ->
  0 <= v < 2 ^ (shift + 7 * (pos' - pos)).
Proof.
  induction budget as [| n IH]; intros buffer pos shift result v pos' H Hs Hr;
    cbn [varint_loop] in H; [discriminate |].
  step_bind H. apply getitem_Ok in E as [_ Hb].
  assert (Hacc : 0 <= Z.lor result (Z.shiftl (Z.land a 127) shift)
                 < 2 ^ (shift + 7)).
  { assert (Hpow : 2 ^ (shift + 7) = 128 * 2 ^ shift)
      by (rewrite Z.pow_add_r by lia; lia).
    assert (Hp : 0 < 2 ^ shift) by (apply Z.pow_pos_nonneg; lia).
    apply lor_below; [lia | lia |].
    rewrite Z.shiftl_mul_pow2 by lia.
    change 127 with (Z.ones 7). rewrite Z.land_ones by lia.
    pose proof (Z.mod_pos_bound a (2 ^ 7) ltac:(lia)) as Hm.
    change (2 ^ 7) with 128 in *. nia. }
  destruct (Z.land a 128 =? 0).
  - injection H as <- <-.
    replace (shift + 7 * (pos + 1 - pos)) with (shift + 7) by lia.
    exact Hacc.
  - apply IH in H; [| lia | exact Hacc].
    replace (shift + 7 * (pos' - pos))
      with (shift + 7 + 7 * (pos' - (pos + 1))) by lia.
    exact H.
Qed.

Lemma varint_loop_truncated (budget : nat) :
  forall (buffer : bytes) (pos shift result : Z),
  (forall i b, pos <= i -> getitem buffer i = Ok b -> Z.land b 0x80 <> 0) ->
  varint_loop budget buffer pos shift result = Raise IndexError.
Proof.
  induction budget as [| n IH]; intros buffer pos shift result Hall;
    cbn [varint_loop]; [reflexivity |].
  destruct (getitem buffer pos) as [b | e] eqn:E; cbn [bind].
  - destruct (Z.eqb_spec (Z.land b 128) 0) as [Hz | _].
    + exfalso. exact (Hall pos b ltac:(lia) E Hz).
    + apply IH. intros i c Hi. apply Hall. lia.
  - apply getitem_Raise in E. now subst.
Qed.

(** X1: where the bytes from [pos] on are a well-formed varint
    (continuation bytes, then one byte with the high bit clear),
    [_decode_varint] returns the 7-bit groups OR'd together at shifts 0, 7,
    14, ..., the offset just past the last byte, and the range from [pos]
    to that offset. *)
Theorem X1_decode_varint_reads_leb128
    (buffer : bytes) (pos last : Z) (more : list Z) :
  varint_at buffer pos more last ->
  _decode_varint buffer pos =
  Ok (leb128 0 (more ++ [last]), pos + Z.of_nat (length more) + 1,
      (pos, pos + Z.of_nat (length more) + 1)).
Proof.
  intros H. unfold _decode_varint.
  rewrite (varint_from_leb128 _ _ _ _ _ _ H). cbn [bind].
  now rewrite Z.lor_0_l.
Qed.

Lemma X1_decode_varint_reads_leb128_witness :
  varint_at [x96; x01] 0 [150] 1 /\
  _decode_varint [x96; x01] 0 = Ok (150, 2, (0, 2)).
Proof.
  assert (H : varint_at [x96; x01] 0 [150] 1).
  { split; [lia |]. split; [| split; vm_compute; reflexivity].
    intros [| i] Hi; [| cbn in Hi; lia].
    split; [vm_compute; reflexivity | vm_compute; discriminate]. }
  split; [exact H |].
  exact (X1_decode_varint_reads_leb128 [x96; x01] 0 1 [150] H).
Defined.

(** X2: a varint that decodes takes at least one byte and ends inside the
    buffer, its range is the span that was read, and a varint of [k] bytes
    has a value below [2 ^ (7 * k)]; there is no other bound, such as 64
    bits, on the value. *)
Theorem X2_decode_varint_span_and_bound
    (buffer : bytes) (pos v pos' : Z) (range : Z * Z) :
  _decode_varint buffer pos = Ok (v, pos', range) ->
  range = (pos, pos') /\ pos < pos' <= len buffer /\
  0 <= v < 2 ^ (7 * (pos' - pos)).
Proof.
  intros H. destruct (_decode_varint_Ok _ _ _ _ _ H) as (-> & Hp & _).
  split; [reflexivity |]. split; [exact Hp |].
  unfold _decode_varint, varint_from in H. step_bind H.
  destruct a as [r p]. injection H as <- <-.
  apply varint_loop_bound in E; [| lia | cbn; lia].
  exact E.
Qed.

Lemma X2_decode_varint_span_and_bound_witness :
  _decode_varint [xff; xff; x03; x08] 0 = Ok (65535, 3, (0, 3)) /\
  (0, 3) = (0, 3) /\ 0 < 3 <= len [xff; xff; x03; x08] /\
  0 <= 65535 < 2 ^ (7 * (3 - 0)).
Proof.
  split; [vm_compute; reflexivity |].
  apply (X2_decode_varint_span_and_bound [xff; xff; x03; x08] 0 65535 3 (0, 3)).
  vm_compute. reflexivity.
Defined.

(** X3: when every byte from [pos] to the end of the buffer has its high
    bit set (no byte at all is one such case), [_decode_varint] runs off the
    end and raises [IndexError]. *)
Theorem X3_decode_varint_truncated (buffer : bytes) (pos : Z) :
  (forall i b, pos <= i -> getitem buffer i = Ok b -> Z.land b 0x80 <> 0) ->
  _decode_varint buffer pos = Raise IndexError.
Proof.
  intros H. unfold _decode_varint, varint_from.
  rewrite varint_loop_truncated by exact H. reflexivity.
Qed.

Lemma X3_decode_varint_truncated_witness :
  (forall i b, 0 <= i -> getitem [x80; xff] i = Ok b -> Z.land b 0x80 <> 0) /\
  _decode_varint [x80; xff] 0 = Raise IndexError.
Proof.
  assert (H : forall i b, 0 <= i -> getitem [x80; xff] i = Ok b ->
                          Z.land b 0x80 <> 0).
  { intros i b Hi Hb. pose proof (getitem_Ok _ _ _ Hb) as [Hr _].
    change (len [x80; xff]) with 2 in Hr.
    assert (Hc : i = 0 \/ i = 1) by lia.
    destruct Hc as [-> | ->]; vm_compute in Hb; injection Hb as <-;
      vm_compute; discriminate. }
  split; [exact H |].
  exact (X3_decode_varint_truncated [x80; xff] 0 H).
Defined.

(** ** [BufferReader] *)

(** X4: with the cursor inside the buffer and [0 <= length <= left_bytes],
    [read_buffer] returns exactly [length] bytes, those at the offsets
    [offset, offset + 1, ...] of the buffer, advances the offset by
    [length], keeps it inside the buffer, and changes nothing else. *)
Theorem X4_read_buffer_reads_length_bytes
    (self : BufferReader.t) (length : Z) :
  0 <= BufferReader.offset self ->
  0 <= length <= BufferReader.left_bytes self ->
  exists result self',
    BufferReader.read_buffer self length = Ok (result, self') /\
    len result = length /\
    (forall i, 0 <= i < length ->
       getitem result i =
       getitem (BufferReader.buffer self) (BufferReader.offset self + i)) /\
    BufferReader.offset self' = BufferReader.offset self + length /\
    BufferReader.offset self' <= len (BufferReader.buffer self') /\
    BufferReader.left_bytes self' = BufferReader.left_bytes self - length /\
    BufferReader.buffer self' = BufferReader.buffer self /\
    BufferReader.saved_offset self' = BufferReader.saved_offset self.
Proof.
  destruct self as [buffer offset saved].
  unfold BufferReader.read_buffer, BufferReader._check_byte,
    BufferReader.left_bytes, BufferReader.set_offset.
  cbn [BufferReader.buffer BufferReader.offset BufferReader.saved_offset].
  intros Hoff Hlen.
  destruct (len buffer - offset <? length) eqn:E; [bool_lia |].
  cbn [bind]. do 2 eexists. split; [reflexivity |].
  cbn [BufferReader.buffer BufferReader.offset BufferReader.saved_offset].
  split; [apply slice_inside_length; lia |].
  split; [intros i Hi; apply getitem_slice; lia |].
  repeat split; lia.
Qed.

Lemma X4_read_buffer_reads_length_bytes_witness :
  (0 <= BufferReader.offset (BufferReader.Build [x0a; x0b; x0c; x0d] 1 0) /\
   0 <= 2 <= BufferReader.left_bytes
              (BufferReader.Build [x0a; x0b; x0c; x0d] 1 0)) /\
  exists result self',
    BufferReader.read_buffer (BufferReader.Build [x0a; x0b; x0c; x0d] 1 0) 2 =
    Ok (result, self') /\
    len result = 2 /\
    (forall i, 0 <= i < 2 ->
       getitem result i = getitem [x0a; x0b; x0c; x0d] (1 + i)) /\
    BufferReader.offset self' = 1 + 2 /\
    BufferReader.offset self' <= len (BufferReader.buffer self') /\
    BufferReader.left_bytes self' = 3 - 2 /\
    BufferReader.buffer self' = [x0a; x0b; x0c; x0d] /\
    BufferReader.saved_offset self' = 0.
Proof.
  split; [vm_compute; repeat split; discriminate |].
  apply (X4_read_buffer_reads_length_bytes
           (BufferReader.Build [x0a; x0b; x0c; x0d] 1 0) 2);
    vm_compute; repeat split; discriminate.
Defined.

(** X5: with the cursor on a byte of the buffer, [try_skip_grpc_header]
    returns without an exception and either moves the offset 5 bytes on or
    leaves it where it was; it moves on exactly when that byte is 0, at
    least 5 bytes are left, and the big-endian number in the next 4 bytes is
    at most the number of bytes after those 5.  The buffer and the saved
    offset are not touched. *)
Theorem X5_try_skip_grpc_header_inside
    (self : BufferReader.t) (current : Z) :
  getitem (BufferReader.buffer self) (BufferReader.offset self) = Ok current ->
  0 <= BufferReader.offset self ->
  exists self',
    BufferReader.try_skip_grpc_header self = Ok self' /\
    BufferReader.buffer self' = BufferReader.buffer self /\
    BufferReader.saved_offset self' = BufferReader.saved_offset self /\
    (BufferReader.offset self' = BufferReader.offset self + 5 \/
     BufferReader.offset self' = BufferReader.offset self) /\
    (BufferReader.offset self' = BufferReader.offset self + 5 <->
     current = 0 /\ 5 <= BufferReader.left_bytes self /\
     exists length,
       unpack_from_gt_I (BufferReader.buffer self)
         (BufferReader.offset self + 1) = Ok length /\
       length <= BufferReader.left_bytes self - 5).
Proof.
  exact (try_skip_grpc_header_inside self current).
Qed.

Lemma X5_try_skip_grpc_header_inside_witness :
  (getitem [x00; x00; x00; x00; x03; x08; x96; x01] 0 = Ok 0 /\ 0 <= 0) /\
  exists self',
    BufferReader.try_skip_grpc_header
      (BufferReader.Build [x00; x00; x00; x00; x03; x08; x96; x01] 0 0) =
    Ok self' /\
    BufferReader.buffer self' = [x00; x00; x00; x00; x03; x08; x96; x01] /\
    BufferReader.saved_offset self' = 0 /\
    (BufferReader.offset self' = 0 + 5 \/ BufferReader.offset self' = 0) /\
    (BufferReader.offset self' = 0 + 5 <->
     0 = 0 /\
     5 <= BufferReader.left_bytes
            (BufferReader.Build [x00; x00; x00; x00; x03; x08; x96; x01] 0 0) /\
     exists length,
       unpack_from_gt_I [x00; x00; x00; x00; x03; x08; x96; x01] (0 + 1) =
       Ok length /\
       length <= BufferReader.left_bytes
                   (BufferReader.Build
                      [x00; x00; x00; x00; x03; x08; x96; x01] 0 0) - 5).
Proof.
  split; [split; [vm_compute; reflexivity | lia] |].
  apply (X5_try_skip_grpc_header_inside
           (BufferReader.Build [x00; x00; x00; x00; x03; x08; x96; x01] 0 0) 0);
    [vm_compute; reflexivity | vm_compute; discriminate].
Defined.

(** X6: a checkpoint survives the read that follows it.  After
    [checkpoint], a [read_buffer] or a [try_skip_grpc_header] that returns
    leaves the saved offset alone, so [reset_to_checkpoint] puts the reader
    back in the state it had at the checkpoint. *)
Theorem X6_reset_restores_checkpoint (self self' : BufferReader.t) :
  (exists length result,
     BufferReader.read_buffer (BufferReader.checkpoint self) length =
     Ok (result, self')) \/
  BufferReader.try_skip_grpc_header (BufferReader.checkpoint self) = Ok self' ->
  BufferReader.reset_to_checkpoint self' = BufferReader.checkpoint self.
Proof.
  destruct self as [buffer offset saved].
  unfold BufferReader.checkpoint, BufferReader.reset_to_checkpoint.
  cbn [BufferReader.buffer BufferReader.offset BufferReader.saved_offset].
  intros [(length & result & Hr) | Hs].
  - unfold BufferReader.read_buffer in Hr. step_bind Hr.
    injection Hr as _ <-. reflexivity.
  - unfold BufferReader.try_skip_grpc_header in Hs. step_bind Hs.
    destruct (_ && _)%bool; [| injection Hs as <-; reflexivity].
    step_bind Hs. destruct (_ <? _); injection Hs as <-; reflexivity.
Qed.

Lemma X6_reset_restores_checkpoint_witness :
  ((exists length result,
      BufferReader.read_buffer
        (BufferReader.checkpoint
           (BufferReader.Build [x00; x00; x00; x00; x01; x08] 0 3)) length =
      Ok (result, BufferReader.Build [x00; x00; x00; x00; x01; x08] 5 0)) \/
   BufferReader.try_skip_grpc_header
     (BufferReader.checkpoint
        (BufferReader.Build [x00; x00; x00; x00; x01; x08] 0 3)) =
   Ok (BufferReader.Build [x00; x00; x00; x00; x01; x08] 5 0)) /\
  BufferReader.reset_to_checkpoint
    (BufferReader.Build [x00; x00; x00; x00; x01; x08] 5 0) =
  BufferReader.checkpoint
    (BufferReader.Build [x00; x00; x00; x00; x01; x08] 0 3).
Proof.
  assert (H : BufferReader.try_skip_grpc_header
                (BufferReader.checkpoint
                   (BufferReader.Build [x00; x00; x00; x00; x01; x08] 0 3)) =
              Ok (BufferReader.Build [x00; x00; x00; x00; x01; x08] 5 0))
    by (vm_compute; reflexivity).
  split; [right; exact H |].
  apply (X6_reset_restores_checkpoint
           (BufferReader.Build [x00; x00; x00; x00; x01; x08] 0 3)
           (BufferReader.Build [x00; x00; x00; x00; x01; x08] 5 0)).
  right. exact H.
Defined.

(** ** [buffer_to_pretty_hex] *)

Lemma hex_digit_inj (d1 d2 : Z) :
  0 <= d1 < 16 -> 0 <= d2 < 16 -> hex_digit d1 = hex_digit d2 -> d1 = d2.
Proof.
  intros H1 H2 H. unfold hex_digit in H.
  apply (f_equal nat_of_ascii) in H.
  destruct (d1 <? 10) eqn:E1; destruct (d2 <? 10) eqn:E2;
    rewrite !nat_ascii_embedding in H by bool_lia; bool_lia.
Qed.

Lemma byte_val_inj (a b : byte) : byte_val a = byte_val b -> a = b.
Proof.
  unfold byte_val. intros H. apply N2Z.inj in H.
  pose proof (Byte.of_to_N a) as Ha.
  rewrite H, Byte.of_to_N in Ha. congruence.
Qed.

Lemma hex_byte_inj (a b : byte) : hex_byte a = hex_byte b -> a = b.
Proof.
  unfold hex_byte. intros H. injection H as Hhi Hlo.
  pose proof (byte_val_range a) as Ra. pose proof (byte_val_range b) as Rb.
  apply hex_digit_inj in Hhi;
    [| split; [apply Z.div_pos | apply Z.div_lt_upper_bound]; lia ..].
  apply hex_digit_inj in Hlo; [| apply Z.mod_pos_bound; lia ..].
  apply byte_val_inj.
  rewrite (Z.div_mod (byte_val a) 16), (Z.div_mod (byte_val b) 16) by lia.
  congruence.
Qed.

Lemma buffer_to_pretty_hex_cons (b : byte) (rest : bytes) :
  buffer_to_pretty_hex (b :: rest) =
  String (hex_digit (byte_val b / 16))
    (String (hex_digit (byte_val b mod 16))
       match rest with
       | [] => EmptyString
       | _ :: _ => String " " (buffer_to_pretty_hex rest)
       end).
Proof. destruct rest; reflexivity. Qed.

(** X7: the hex dump loses nothing: two byte strings with the same dump are
    the same byte string. *)
Theorem X7_buffer_to_pretty_hex_injective (a b : bytes) :
  buffer_to_pretty_hex a = buffer_to_pretty_hex b -> a = b.
Proof.
  revert b. induction a as [| x xs IH]; intros [| y ys] H.
  - reflexivity.
  - rewrite buffer_to_pretty_hex_cons in H. discriminate.
  - rewrite buffer_to_pretty_hex_cons in H. discriminate.
  - rewrite !buffer_to_pretty_hex_cons in H.
    injection H as Hhi Hlo Hrest.
    assert (x = y) as ->.
    { apply hex_byte_inj. unfold hex_byte. congruence. }
    f_equal. destruct xs as [| x' xs]; destruct ys as [| y' ys];
      try discriminate; [reflexivity |].
    injection Hrest as Hrest. apply IH, Hrest.
Qed.

Lemma X7_buffer_to_pretty_hex_injective_witness :
  buffer_to_pretty_hex [x0a; xff] = buffer_to_pretty_hex [x0a; xff] /\
  [x0a; xff] = [x0a; xff].
Proof.
  split; [reflexivity |].
  apply (X7_buffer_to_pretty_hex_injective [x0a; xff] [x0a; xff]).
  reflexivity.
Defined.

(** X8: the dump of [n] bytes has two digits a byte and [n - 1] spaces
    between them, [3 * n - 1] characters; the dump of no bytes is the empty
    string. *)
Theorem X8_buffer_to_pretty_hex_length (buffer : bytes) :
  String.length (buffer_to_pretty_hex buffer) = (3 * length buffer - 1)%nat.
Proof.
  induction buffer as [| b rest IH]; [reflexivity |].
  rewrite buffer_to_pretty_hex_cons. cbn [String.length].
  destruct rest as [| b' rest']; [reflexivity |].
  cbn [String.length]. rewrite IH. cbn [length]. lia.
Qed.

(** ** The scalar reinterpretations *)

Lemma twos_complement_fixed (bits V : Z) :
  0 < bits -> 0 <= V ->
  (twos_complement bits V =? V) = (V <? 2 ^ (bits - 1)).
Proof.
  intros Hb HV. unfold twos_complement.
  assert (Hp : 2 ^ bits = 2 * 2 ^ (bits - 1)).
  { replace bits with (1 + (bits - 1)) at 1 by lia.
    rewrite Z.pow_add_r by lia. reflexivity. }
  assert (Hpos : 0 < 2 ^ (bits - 1)) by (apply Z.pow_pos_nonneg; lia).
  pose proof (Z.mod_pos_bound V (2 ^ bits) ltac:(lia)) as Hm.
  destruct (Z.ltb_spec V (2 ^ (bits - 1))) as [Hlt | Hge].
  - rewrite Z.mod_small by lia.
    destruct (Z.ltb_spec V (2 ^ (bits - 1))); [| lia]. apply Z.eqb_refl.
  - destruct (Z.ltb_spec (V mod 2 ^ bits) (2 ^ (bits - 1))) as [Hl | Hg].
    + apply Z.eqb_neq. lia.
    + apply Z.eqb_neq. lia.
Qed.

Lemma zigzag_cases (V : Z) :
  (Z.even V = true /\ V = 2 * zigzag V) \/
  (Z.even V = false /\ V = - 2 * zigzag V - 1).
Proof.
  unfold zigzag. pose proof (Zdiv.Zmod_even V) as Hm.
  destruct (Z.even V); [left | right]; split; try reflexivity;
    Z.to_euclidean_division_equations; lia.
Qed.

Lemma zigzag_fixed (V : Z) : 0 <= V -> (zigzag V =? V) = (V =? 0).
Proof.
  intros HV.
  destruct (zigzag_cases V) as [[_ H] | [_ H]];
    destruct (Z.eqb_spec (zigzag V) V); destruct (Z.eqb_spec V 0);
    try reflexivity; lia.
Qed.

(** X9: which candidates an unsigned varint value [V] gets is a matter of
    its size: "int32" is listed exactly from [2 ^ 31] on, "int64" exactly
    from [2 ^ 63] on, and "sint" for every [V] but 0; so 0 has the single
    candidate "uint", and a value below [2 ^ 31] has "uint" and "sint". *)
Theorem X9_varint_candidates_by_size (V : Z) :
  0 <= V ->
  decode_varint_parts V =
  Ok ([Candidate "uint" (IntValue V)] ++
      (if 2 ^ 31 <=? V
       then [Candidate "int32" (IntValue (twos_complement 32 V))] else []) ++
      (if 2 ^ 63 <=? V
       then [Candidate "int64" (IntValue (twos_complement 64 V))] else []) ++
      (if V =? 0 then [] else [Candidate "sint" (IntValue (zigzag V))])).
Proof.
  intros HV. rewrite decode_varint_parts_eq.
  cbn [filter differs_from c_value app].
  rewrite !twos_complement_fixed, zigzag_fixed by lia.
  change (2 ^ (32 - 1)) with (2 ^ 31). change (2 ^ (64 - 1)) with (2 ^ 63).
  rewrite !Z.ltb_antisym, !negb_involutive.
  destruct (2 ^ 31 <=? V); destruct (2 ^ 63 <=? V); destruct (V =? 0);
    reflexivity.
Qed.

Lemma X9_varint_candidates_by_size_witness :
  0 <= 4294967295 /\
  decode_varint_parts 4294967295 =
  Ok [Candidate "uint" (IntValue 4294967295);
      Candidate "int32" (IntValue (-1));
      Candidate "sint" (IntValue (-2147483648))].
Proof.
  split; [lia |].
  exact (X9_varint_candidates_by_size 4294967295 ltac:(lia)).
Defined.

(** X10: [interpret_as_signed_type] undoes the zig-zag encoding: every
    integer [n] is the image of exactly one unsigned value, [2 * n] for
    [n >= 0] and [- 2 * n - 1] for [n < 0]. *)
Theorem X10_zigzag_is_a_bijection (n : Z) :
  let u := if 0 <=? n then 2 * n else - 2 * n - 1 in
  0 <= u /\
  interpret_as_signed_type u = n /\
  (forall u', 0 <= u' -> interpret_as_signed_type u' = n -> u' = u).
Proof.
  cbv zeta. split; [destruct (Z.leb_spec 0 n); lia |].
  split.
  - rewrite interpret_as_signed_type_spec.
    destruct (zigzag_cases (if 0 <=? n then 2 * n else - 2 * n - 1))
      as [[_ H] | [_ H]];
      destruct (Z.leb_spec 0 n); lia.
  - intros u' Hu' H. rewrite interpret_as_signed_type_spec in H.
    destruct (zigzag_cases u') as [[_ E] | [_ E]];
      destruct (Z.leb_spec 0 n); lia.
Qed.

(** X11: on a [bits]-bit unsigned value [interpret_as_twos_complement]
    gives the signed value with the same bits: it lies in the signed range,
    is congruent to the argument modulo [2 ^ bits], and is negative exactly
    when the top bit is set. *)
Theorem X11_twos_complement_range (n bits : Z) :
  0 < bits -> 0 <= n < 2 ^ bits ->
  - 2 ^ (bits - 1) <= interpret_as_twos_complement n bits < 2 ^ (bits - 1) /\
  interpret_as_twos_complement n bits mod 2 ^ bits = n /\
  (interpret_as_twos_complement n bits < 0 <-> 2 ^ (bits - 1) <= n).
Proof.
  intros Hb Hn.
  pose proof (interpret_as_twos_complement_spec bits n Hb) as H.
  rewrite Z.mod_small in H by exact Hn. rewrite H.
  unfold twos_complement. rewrite Z.mod_small by exact Hn.
  assert (Hp : 2 ^ bits = 2 * 2 ^ (bits - 1)).
  { replace bits with (1 + (bits - 1)) at 1 by lia.
    rewrite Z.pow_add_r by lia. reflexivity. }
  destruct (Z.ltb_spec n (2 ^ (bits - 1))).
  - split; [lia |]. split; [apply Z.mod_small; lia | lia].
  - split; [lia |]. split; [| lia].
    replace (n - 2 ^ bits) with (n + (-1) * 2 ^ bits) by lia.
    rewrite Z.mod_add by lia. apply Z.mod_small; lia.
Qed.

Lemma X11_twos_complement_range_witness :
  (0 < 8 /\ 0 <= 255 < 2 ^ 8) /\
  - 2 ^ (8 - 1) <= interpret_as_twos_complement 255 8 < 2 ^ (8 - 1) /\
  interpret_as_twos_complement 255 8 mod 2 ^ 8 = 255 /\
  (interpret_as_twos_complement 255 8 < 0 <-> 2 ^ (8 - 1) <= 255).
Proof.
  split; [lia |]. apply (X11_twos_complement_range 255 8); lia.
Defined.

(** X12: the signed readings that [decode_varint_parts] gets out of
    [struct] are those of the module's own helpers: the "int32" and "int64"
    values are [interpret_as_twos_complement] of the low 32 and 64 bits. *)
Theorem X12_struct_agrees_with_helper (V : Z) :
  decode_varint_parts V =
  Ok (Candidate "uint" (IntValue V) ::
      filter (differs_from V)
        [Candidate "int32"
           (IntValue (interpret_as_twos_complement (Z.land V 0xFFFFFFFF) 32));
         Candidate "int64"
           (IntValue
              (interpret_as_twos_complement (Z.land V 0xFFFFFFFFFFFFFFFF) 64));
         Candidate "sint" (IntValue (interpret_as_signed_type V))]).
Proof.
  rewrite decode_varint_parts_eq, interpret_as_signed_type_spec.
  change 0xFFFFFFFF with (Z.ones 32).
  change 0xFFFFFFFFFFFFFFFF with (Z.ones 64).
  rewrite !Z.land_ones, !interpret_as_twos_complement_spec by lia.
  reflexivity.
Qed.

(** ** The record of a field, again *)

Lemma Type_of_record (nested : bytes -> res (list field_info))
    (buffer : bytes) (pos pos' : Z) (f : field_info) :
  decode_field_with nested buffer pos = Ok (f, pos') ->
  exists key p0,
    _decode_varint buffer pos = Ok (key, p0, (pos, p0)) /\
    Field_Number f = Z.shiftr key 3 /\
    Type_ f = wire_type_to_string (Z.land key 0x07) /\
    ((Z.land key 0x07 = WIRE_TYPE_VARINT /\
      exists V p1, _decode_varint buffer p0 = Ok (V, p1, (p0, p1)) /\
                   pos' = p1 /\
                   exists l, decode_varint_parts V = Ok l /\
                             Content f = Content_candidates l) \/
     (Z.land key 0x07 = WIRE_TYPE_64BIT /\
      exists v, unpack_from_lt_Q buffer p0 = Ok v /\ pos' = p0 + 8 /\
                Content f =
                Content_candidates
                  [Candidate "double" (FloatValue (ieee_of_bits 52 11 v));
                   Candidate "int" (IntValue v)]) \/
     (Z.land key 0x07 = WIRE_TYPE_LENGTH_DELIMITED /\
      decode_length_delimited_with nested buffer p0 = Ok (Content f, pos')) \/
     (Z.land key 0x07 = WIRE_TYPE_32BIT /\
      exists v, unpack_from_lt_I buffer p0 = Ok v /\ pos' = p0 + 4 /\
                Content f =
                Content_candidates
                  [Candidate "float" (FloatValue (ieee_of_bits 23 8 v));
                   Candidate "int" (IntValue v)])).
Proof.
  unfold decode_field_with. intros H.
  step_bind H. destruct a as [[key p0] key_range].
  destruct (_decode_varint_Ok _ _ _ _ _ E) as (-> & _ & _).
  cbv zeta in H. step_bind H. destruct a as [[value p1] value_range].
  injection H as <- <-. exists key, p0.
  cbn [Field_Number Type_ Content].
  split; [reflexivity |]. split; [reflexivity |]. split; [reflexivity |].
  destruct (Z.eqb_spec (Z.land key 7) WIRE_TYPE_VARINT) as [W | _].
  { left. split; [exact W |].
    step_bind E0. destruct a as [[v p2] r2]. step_bind E0.
    injection E0 as <- <- <-.
    destruct (_decode_varint_Ok _ _ _ _ _ E1) as (-> & _ & _).
    exists v, p2. repeat split; eauto. }
  destruct (Z.eqb_spec (Z.land key 7) WIRE_TYPE_64BIT) as [W | _].
  { right; left. split; [exact W |].
    step_bind E0. rewrite decode_fixed64_eq in E0
      by (eapply unpack_from_lt_Q_range, E1).
    cbn [bind] in E0. injection E0 as <- <- <-. eauto. }
  destruct (Z.eqb_spec (Z.land key 7) WIRE_TYPE_LENGTH_DELIMITED) as [W | _].
  { right; right; left. split; [exact W |].
    step_bind E0. destruct a as [c p2]. injection E0 as <- <- <-.
    reflexivity. }
  destruct (Z.eqb_spec (Z.land key 7) WIRE_TYPE_32BIT) as [W | _].
  { right; right; right. split; [exact W |].
    step_bind E0. rewrite decode_fixed32_eq in E0
      by (eapply unpack_from_lt_I_range, E1).
    cbn [bind] in E0. injection E0 as <- <- <-. eauto. }
  discriminate.
Qed.

(** X13: the ["Type"] of a record that [decode_field] returns is one of the
    four names, never "unknown", and it tells the shape of ["Content"]:
    "varint" goes with a candidate list that starts with "uint", "fixed64"
    with the pair "double", "int", "fixed32" with the pair "float", "int",
    and "length_delimited" with a string, a nested message or bytes. *)
Theorem X13_type_tells_content
    (buffer : bytes) (pos pos' : Z) (f : field_info) :
  decode_field buffer pos = Ok (f, pos') ->
  (Type_ f = "varint"%string /\
   exists V rest,
     0 <= V /\
     Content f =
     Content_candidates (Candidate "uint" (IntValue V) :: rest)) \/
  (Type_ f = "fixed64"%string /\
   exists v,
     0 <= v < 2 ^ 64 /\
     Content f =
     Content_candidates
       [Candidate "double" (FloatValue (ieee_of_bits 52 11 v));
        Candidate "int" (IntValue v)]) \/
  (Type_ f = "length_delimited"%string /\
   exists hex,
     (exists s, Content f = Content_string s hex) \/
     (exists m, Content f = Content_protobuf m hex) \/
     Content f = Content_bytes hex hex) \/
  (Type_ f = "fixed32"%string /\
   exists v,
     0 <= v < 2 ^ 32 /\
     Content f =
     Content_candidates
       [Candidate "float" (FloatValue (ieee_of_bits 23 8 v));
        Candidate "int" (IntValue v)]).
Proof.
  intros H. apply Type_of_record in H
    as (key & p0 & _ & _ & -> & [C | [C | [C | C]]]).
  - destruct C as (-> & V & p1 & HV & _ & l & Hparts & ->).
    left. split; [reflexivity |].
    rewrite decode_varint_parts_eq in Hparts. injection Hparts as <-.
    apply _decode_varint_Ok in HV as (_ & _ & HV). eauto.
  - destruct C as (-> & v & Hv & _ & ->).
    right; left. split; [reflexivity |].
    apply unpack_from_lt_Q_range in Hv. eauto.
  - destruct C as (-> & HC).
    right; right; left. split; [reflexivity |].
    apply decode_length_delimited_with_Ok in HC
      as (length & p1 & _ & _ & HC).
    cbv zeta in HC. eexists.
    destruct (utf8_decode _); [left; eauto |].
    destruct (decode_protobuf _); [right; left; eauto | right; right; eauto].
  - destruct C as (-> & v & Hv & _ & ->).
    right; right; right. split; [reflexivity |].
    apply unpack_from_lt_I_range in Hv. eauto.
Qed.

Lemma X13_type_tells_content_witness :
  decode_field [x0d; x00; x00; x80; x3f] 0 =
  Ok (FieldInfo (0, 5) 1 "fixed32" "0d"
        (Content_candidates
           [Candidate "float" (FloatValue (S754_finite false 8388608 (-23)));
            Candidate "int" (IntValue 1065353216)]), 5) /\
  exists f,
    f = FieldInfo (0, 5) 1 "fixed32" "0d"
          (Content_candidates
             [Candidate "float" (FloatValue (S754_finite false 8388608 (-23)));
              Candidate "int" (IntValue 1065353216)]) /\
    ((Type_ f = "varint"%string /\
      exists V rest,
        0 <= V /\
        Content f =
        Content_candidates (Candidate "uint" (IntValue V) :: rest)) \/
     (Type_ f = "fixed64"%string /\
      exists v,
        0 <= v < 2 ^ 64 /\
        Content f =
        Content_candidates
          [Candidate "double" (FloatValue (ieee_of_bits 52 11 v));
           Candidate "int" (IntValue v)]) \/
     (Type_ f = "length_delimited"%string /\
      exists hex,
        (exists s, Content f = Content_string s hex) \/
        (exists m, Content f = Content_protobuf m hex) \/
        Content f = Content_bytes hex hex) \/
     (Type_ f = "fixed32"%string /\
      exists v,
        0 <= v < 2 ^ 32 /\
        Content f =
        Content_candidates
          [Candidate "float" (FloatValue (ieee_of_bits 23 8 v));
           Candidate "int" (IntValue v)])).
Proof.
  split; [vm_compute; reflexivity |].
  eexists. split; [reflexivity |].
  apply (X13_type_tells_content [x0d; x00; x00; x80; x3f] 0 5).
  vm_compute. reflexivity.
Defined.

Lemma unpack_from_bytes_inside (size : nat) (buffer bs : bytes) (offset : Z) :
  unpack_from_bytes size buffer offset = Ok bs ->
  0 <= offset ->
  offset + Z.of_nat size <= len buffer /\
  bs = firstn size (skipn (Z.to_nat offset) buffer).
Proof.
  unfold unpack_from_bytes. intros H Hoff.
  destruct (offset <? 0) eqn:N; [bool_lia |].
  destruct (offset <? 0) eqn:N' in H; [discriminate |].
  destruct (len buffer - offset <? Z.of_nat size) eqn:S in H;
    [discriminate |].
  injection H as <-. split; [bool_lia | reflexivity].
Qed.

Lemma field_span
    (buffer : bytes) (pos pos' : Z) (f : field_info) :
  0 <= pos ->
  decode_field buffer pos = Ok (f, pos') ->
  Byte_Range f = (pos, pos') /\
  pos + 2 <= pos' /\
  pos + 2 <= len buffer /\
  0 <= Field_Number f /\
  (Type_ f <> "length_delimited"%string -> pos' <= len buffer).
Proof.
  intros Hpos H. pose proof (decode_field_progress _ _ _ _ H) as [_ Hr].
  split; [exact Hr |].
  apply Type_of_record in H
    as (key & p0 & Hk & -> & -> & C).
  apply _decode_varint_Ok in Hk as (_ & Hp0 & Hkey).
  assert (Hn : 0 <= Z.shiftr key 3) by (apply Z.shiftr_nonneg; exact Hkey).
  destruct C as [C | [C | [C | C]]].
  - destruct C as (_ & V & p1 & HV & -> & _).
    apply _decode_varint_Ok in HV as (_ & Hp1 & _).
    repeat split; try lia.
  - destruct C as (_ & v & Hv & -> & _).
    unfold unpack_from_lt_Q in Hv. step_bind Hv.
    apply unpack_from_bytes_inside in E as [E _]; [| lia].
    repeat split; lia.
  - destruct C as (-> & HC).
    apply decode_length_delimited_with_Ok in HC
      as (length & p1 & HV & -> & _).
    apply _decode_varint_Ok in HV as (_ & Hp1 & Hlen).
    repeat split; try lia. intros N. exfalso. apply N. reflexivity.
  - destruct C as (_ & v & Hv & -> & _).
    unfold unpack_from_lt_I in Hv. step_bind Hv.
    apply unpack_from_bytes_inside in E as [E _]; [| lia].
    repeat split; lia.
Qed.

(** X14: a decoded field has the byte range from the offset it was decoded
    at to the offset that is returned, spans at least two bytes of which
    the first two lie in the buffer, and has a field number that is not
    negative; unless it is length-delimited it ends inside the buffer. *)
Theorem X14_field_span
    (buffer : bytes) (pos pos' : Z) (f : field_info) :
  0 <= pos ->
  decode_field buffer pos = Ok (f, pos') ->
  Byte_Range f = (pos, pos') /\
  pos + 2 <= pos' /\
  pos + 2 <= len buffer /\
  0 <= Field_Number f /\
  (Type_ f <> "length_delimited"%string -> pos' <= len buffer).
Proof.
  exact (field_span buffer pos pos' f).
Qed.

Lemma X14_field_span_witness :
  (0 <= 0 /\
   decode_field [x08; x96; x01; x12] 0 =
  Ok (FieldInfo (0, 3) 1 "varint" "08"
        (Content_candidates
           [Candidate "uint" (IntValue 150);
            Candidate "sint" (IntValue 75)]), 3)) /\
  (0, 3) = (0, 3) /\ 0 + 2 <= 3 /\ 0 + 2 <= len [x08; x96; x01; x12] /\
  0 <= 1 /\
  ("varint"%string <> "length_delimited"%string ->
   3 <= len [x08; x96; x01; x12]).
Proof.
  split; [split; [lia | vm_compute; reflexivity] |].
  apply (X14_field_span [x08; x96; x01; x12] 0 3
           (FieldInfo (0, 3) 1 "varint" "08"
              (Content_candidates
                 [Candidate "uint" (IntValue 150);
                  Candidate "sint" (IntValue 75)])));
    [lia | vm_compute; reflexivity].
Defined.

(** ** The loop of [decode_protobuf], as a relation *)

Lemma run_message_from (buffer : bytes) (pos stop : Z)
    (rest : list field_info) :
  run buffer pos rest stop ->
  forall acc, message_from buffer pos acc = Ok (acc ++ rest).
Proof.
  induction 1 as [pos Hpos | pos pos' stop f rest Hlt D _ IH]; intros acc;
    rewrite message_from_eq.
  - destruct (pos <? len buffer) eqn:L; [bool_lia |].
    now rewrite app_nil_r.
  - destruct (pos <? len buffer) eqn:L; [| bool_lia].
    rewrite D. cbn [bind]. rewrite IH, <- app_assoc. reflexivity.
Qed.

Lemma message_from_run (buffer : bytes) (n : nat) :
  forall (pos : Z) (acc records : list field_info),
  (Z.to_nat (len buffer - pos) <= n)%nat ->
  message_from buffer pos acc = Ok records ->
  exists rest stop, records = acc ++ rest /\ run buffer pos rest stop.
Proof.
  induction n as [| n IH]; intros pos acc records Hn H;
    rewrite message_from_eq in H.
  - destruct (pos <? len buffer) eqn:L; [bool_lia |].
    injection H as <-. exists [], pos. rewrite app_nil_r.
    split; [reflexivity | constructor; bool_lia].
  - destruct (pos <? len buffer) eqn:L.
    + step_bind H. destruct a as [f pos'].
      pose proof (decode_field_progress _ _ _ _ E) as [Hlt _].
      apply IH in H as (rest & stop & -> & R); [| lia].
      exists (f :: rest), stop. rewrite <- app_assoc.
      split; [reflexivity |]. econstructor; [bool_lia | exact E | exact R].
    + injection H as <-. exists [], pos. rewrite app_nil_r.
      split; [reflexivity | constructor; bool_lia].
Qed.

(** [decode_protobuf] returns a list exactly when the loop runs from offset
    0 to the end over the fields of that list. *)
Lemma decode_protobuf_run (buffer : bytes) (records : list field_info) :
  decode_protobuf buffer = Ok records <->
  exists stop, run buffer 0 records stop.
Proof.
  rewrite decode_protobuf_eq. split.
  - intros H. apply (message_from_run buffer (length buffer)) in H
      as (rest & stop & -> & R); [eauto | unfold len; lia].
  - intros [stop R]. exact (run_message_from _ _ _ _ R []).
Qed.

Lemma run_tiles (buffer : bytes) (pos stop : Z) (records : list field_info) :
  run buffer pos records stop ->
  0 <= pos ->
  tiles pos records stop /\ pos <= stop /\ len buffer <= stop /\
  2 * Z.of_nat (length records) <= Z.max 0 (len buffer - pos).
Proof.
  induction 1 as [pos Hpos | pos pos' stop f rest Hlt D _ IH]; intros Hp.
  - cbn. repeat split; lia.
  - destruct (field_span _ _ _ _ Hp D) as (Hr & H2 & H2' & _).
    destruct IH as (IH1 & IH2 & IH3 & IH4); [lia |].
    cbn [tiles length]. rewrite Hr. cbn [fst snd].
    repeat split; try assumption; lia.
Qed.

(** X15: the records of a decoded message lie end to end in the order of
    the list: the first starts at offset 0, each next one starts where the
    one before it ends, and the last ends at or after the end of the
    buffer.  Each takes two bytes or more, so a buffer of [n] bytes has at
    most [n / 2] records, and only the empty buffer has none. *)
Theorem X15_records_tile_the_buffer
    (buffer : bytes) (records : list field_info) :
  decode_protobuf buffer = Ok records ->
  exists stop,
    tiles 0 records stop /\
    len buffer <= stop /\
    2 * Z.of_nat (length records) <= len buffer /\
    (records = [] <-> buffer = []).
Proof.
  intros H. pose proof H as H'.
  apply decode_protobuf_run in H as [stop R].
  destruct (run_tiles _ _ _ _ R ltac:(lia)) as (T & _ & Hstop & Hcount).
  pose proof (len_nonneg buffer).
  exists stop. repeat split; try assumption; try lia.
  - intros ->. inversion R; subst.
    destruct buffer; [reflexivity | cbn in *; lia].
  - intros ->. cbn in H'. now injection H' as <-.
Qed.

Lemma X15_records_tile_the_buffer_witness :
  decode_protobuf [x08; x01; x10; x02] =
  Ok [FieldInfo (0, 2) 1 "varint" "08"
        (Content_candidates
           [Candidate "uint" (IntValue 1); Candidate "sint" (IntValue (-1))]);
      FieldInfo (2, 4) 2 "varint" "10"
        (Content_candidates
           [Candidate "uint" (IntValue 2); Candidate "sint" (IntValue 1)])] /\
  exists stop,
    tiles 0
      [FieldInfo (0, 2) 1 "varint" "08"
         (Content_candidates
            [Candidate "uint" (IntValue 1); Candidate "sint" (IntValue (-1))]);
       FieldInfo (2, 4) 2 "varint" "10"
         (Content_candidates
            [Candidate "uint" (IntValue 2); Candidate "sint" (IntValue 1)])]
      stop /\
    len [x08; x01; x10; x02] <= stop /\
    2 * Z.of_nat 2 <= len [x08; x01; x10; x02] /\
    ([FieldInfo (0, 2) 1 "varint" "08"
        (Content_candidates
           [Candidate "uint" (IntValue 1); Candidate "sint" (IntValue (-1))]);
      FieldInfo (2, 4) 2 "varint" "10"
        (Content_candidates
           [Candidate "uint" (IntValue 2); Candidate "sint" (IntValue 1)])] =
     [] <-> [x08; x01; x10; x02] = []).
Proof.
  split; [vm_compute; reflexivity |].
  apply (X15_records_tile_the_buffer [x08; x01; x10; x02]).
  vm_compute. reflexivity.
Defined.



(** X17: a payload that is not UTF-8 and that [decode_protobuf] decodes is
    classified as a nested message, with the decoded records and the hex
    dump of the payload.  Such a payload is not empty (the empty payload is
    the empty string) and neither is the nested message. *)
Theorem X17_nested_message_classification
    (buffer : bytes) (pos length p1 : Z) (m : list field_info) :
  _decode_varint buffer pos = Ok (length, p1, (pos, p1)) ->
  utf8_decode (slice buffer p1 (p1 + length)) = None ->
  decode_protobuf (slice buffer p1 (p1 + length)) = Ok m ->
  decode_length_delimited buffer pos =
  Ok (Content_protobuf m
        (buffer_to_pretty_hex (slice buffer p1 (p1 + length))),
      p1 + length) /\
  slice buffer p1 (p1 + length) <> [] /\
  m <> [].
Proof.
  intros Hv Hs Hm. split; [| split].
  - unfold decode_length_delimited, decode_length_delimited_with,
      decode_utf8.
    rewrite Hv. cbn [bind]. cbv zeta. rewrite Hs, Hm. reflexivity.
  - intros E. rewrite E in Hs. discriminate.
  - intros ->. apply decode_protobuf_run in Hm as [stop R].
    inversion R; subst.
    destruct (slice buffer p1 (p1 + length)); [discriminate |].
    cbn in *. lia.
Qed.

Lemma X17_nested_message_classification_witness :
  (_decode_varint [x03; x08; x96; x01] 0 = Ok (3, 1, (0, 1)) /\
   utf8_decode (slice [x03; x08; x96; x01] 1 (1 + 3)) = None /\
   decode_protobuf (slice [x03; x08; x96; x01] 1 (1 + 3)) =
   Ok [FieldInfo (0, 3) 1 "varint" "08"
         (Content_candidates
            [Candidate "uint" (IntValue 150);
             Candidate "sint" (IntValue 75)])]) /\
  decode_length_delimited [x03; x08; x96; x01] 0 =
  Ok (Content_protobuf
        [FieldInfo (0, 3) 1 "varint" "08"
           (Content_candidates
              [Candidate "uint" (IntValue 150);
               Candidate "sint" (IntValue 75)])]
        (buffer_to_pretty_hex (slice [x03; x08; x96; x01] 1 (1 + 3))),
      1 + 3) /\
  slice [x03; x08; x96; x01] 1 (1 + 3) <> [] /\
  [FieldInfo (0, 3) 1 "varint" "08"
     (Content_candidates
        [Candidate "uint" (IntValue 150);
         Candidate "sint" (IntValue 75)])] <> [].
Proof.
  split; [repeat split; vm_compute; reflexivity |].
  apply (X17_nested_message_classification [x03; x08; x96; x01] 0 3 1);
    vm_compute; reflexivity.
Defined.

(** ** Two messages, one after the other *)

Lemma len_app (a b : bytes) : len (a ++ b) = len a + len b.
Proof. unfold len. rewrite length_app. lia. Qed.

Lemma getitem_app_l (a b : bytes) (i : Z) :
  0 <= i < len a -> getitem (a ++ b) i = getitem a i.
Proof.
  intros Hi. pose proof (len_nonneg b).
  destruct (getitem_nth (a ++ b) i ltac:(rewrite len_app; lia))
    as (x & Hx & ->).
  destruct (getitem_nth a i Hi) as (y & Hy & ->).
  rewrite nth_error_app1 in Hx by (unfold len in Hi; lia). congruence.
Qed.


Lemma firstn_skipn_app_l (a b : bytes) (n p : nat) :
  (p + n <= length a)%nat ->
  firstn n (skipn p (a ++ b)) = firstn n (skipn p a).
Proof.
  intros H. rewrite skipn_app, firstn_app, length_skipn.
  replace (n - (length a - p))%nat with 0%nat by lia.
  cbn [firstn]. apply app_nil_r.
Qed.


Lemma slice_app_l (a b : bytes) (p e : Z) :
  0 <= p <= e -> e <= len a -> slice (a ++ b) p e = slice a p e.
Proof.
  intros Hp He. pose proof (len_nonneg b). unfold slice. cbv zeta.
  rewrite !clamp_inside by (rewrite ?len_app; lia).
  apply firstn_skipn_app_l. unfold len in He. lia.
Qed.


Lemma unpack_from_bytes_app_l (size : nat) (a b bs : bytes) (pos : Z) :
  0 <= pos ->
  unpack_from_bytes size a pos = Ok bs ->
  unpack_from_bytes size (a ++ b) pos = Ok bs.
Proof.
  intros Hpos H. pose proof (len_nonneg b).
  apply unpack_from_bytes_inside in H as [Hin ->]; [| exact Hpos].
  unfold unpack_from_bytes. rewrite len_app.
  destruct (pos <? 0) eqn:E1; [bool_lia |].
  destruct (pos <? 0) eqn:E1' in |- *; [bool_lia |].
  destruct (len a + len b - pos <? Z.of_nat size) eqn:E2; [bool_lia |].
  f_equal. apply firstn_skipn_app_l. unfold len in Hin. lia.
Qed.


Lemma varint_from_app_l (n : nat) :
  forall (a b : bytes) (pos shift result v pos' : Z),
  0 <= pos ->
  varint_loop n a pos shift result = Ok (v, pos') ->
  varint_from (a ++ b) pos shift result = Ok (v, pos').
Proof.
  induction n as [| n IH]; intros a b pos shift result v pos' Hpos H;
    cbn [varint_loop] in H; [discriminate |].
  step_bind H. pose proof (getitem_Ok _ _ _ E) as [Hi _].
  rewrite varint_from_eq, getitem_app_l, E by lia. cbn [bind]. cbv zeta.
  destruct (Z.land a0 128 =? 0); [exact H |].
  apply IH; [lia | exact H].
Qed.

Lemma _decode_varint_app_l (a b : bytes) (pos v pos' : Z) (range : Z * Z) :
  0 <= pos ->
  _decode_varint a pos = Ok (v, pos', range) ->
  _decode_varint (a ++ b) pos = Ok (v, pos', range).
Proof.
  intros Hpos H. unfold _decode_varint in *. unfold varint_from in H.
  step_bind H. destruct a0 as [r p]. injection H as <- <- <-.
  rewrite (varint_from_app_l _ _ _ _ _ _ _ _ Hpos E). reflexivity.
Qed.



Section Concatenation.

Variable nested : bytes -> res (list field_info).
Variables a b : bytes.

Lemma decode_length_delimited_with_app_l (pos pos' : Z) (c : content) :
  0 <= pos ->
  decode_length_delimited_with nested a pos = Ok (c, pos') ->
  pos' <= len a ->
  decode_length_delimited_with nested (a ++ b) pos = Ok (c, pos').
Proof.
  intros Hpos H Hend.
  destruct (decode_length_delimited_with_Ok _ _ _ _ _ H)
    as (length & p1 & Hv & -> & _).
  pose proof (_decode_varint_Ok _ _ _ _ _ Hv) as (_ & Hp1 & Hlen).
  unfold decode_length_delimited_with in *.
  rewrite Hv in H. rewrite (_decode_varint_app_l _ _ _ _ _ _ Hpos Hv).
  cbn [bind] in *. cbv zeta in *.
  rewrite slice_app_l by lia. exact H.
Qed.


Lemma decode_field_with_app_l (pos pos' : Z) (f : field_info) :
  0 <= pos ->
  decode_field_with nested a pos = Ok (f, pos') ->
  pos' <= len a ->
  decode_field_with nested (a ++ b) pos = Ok (f, pos').
Proof.
  intros Hpos H Hend. unfold decode_field_with in *.
  step_bind H. destruct a0 as [[key p0] key_range].
  pose proof (_decode_varint_Ok _ _ _ _ _ E) as (-> & Hp0 & _).
  assert (H0 : 0 <= p0) by lia.
  rewrite (_decode_varint_app_l _ _ _ _ _ _ Hpos E). cbn [bind].
  cbv zeta in *. cbn [fst] in *.
  rewrite slice_app_l by lia.
  step_bind H. destruct a0 as [[value p1] value_range].
  injection H as <- <-.
  match goal with
  | |- bind ?m _ = _ => assert (m = Ok (value, p1, value_range)) as ->
  end; [| reflexivity].
  destruct (Z.land key 7 =? WIRE_TYPE_VARINT).
  { step_bind E0. destruct a0 as [[v p2] r2].
    rewrite (_decode_varint_app_l _ _ _ _ _ _ H0 E1). exact E0. }
  destruct (Z.land key 7 =? WIRE_TYPE_64BIT).
  { unfold unpack_from_lt_Q in *. step_bind E0. step_bind E1.
    rewrite (unpack_from_bytes_app_l _ _ _ _ _ H0 E2).
    cbn [bind]. injection E1 as <-. exact E0. }
  destruct (Z.land key 7 =? WIRE_TYPE_LENGTH_DELIMITED).
  { step_bind E0. destruct a0 as [c p2]. injection E0 as <- <- <-.
    rewrite (decode_length_delimited_with_app_l _ _ _ H0 E1 Hend).
    reflexivity. }
  destruct (Z.land key 7 =? WIRE_TYPE_32BIT).
  { unfold unpack_from_lt_I in *. step_bind E0. step_bind E1.
    rewrite (unpack_from_bytes_app_l _ _ _ _ _ H0 E2).
    cbn [bind]. injection E1 as <-. exact E0. }
  discriminate.
Qed.


End Concatenation.







(** ** Payloads and bytes *)

Lemma utf8_decode_ascii (payload : bytes) :
  Forall (fun b => byte_val b < 0x80) payload ->
  utf8_decode payload = Some (map byte_val payload).
Proof.
  induction 1 as [| b rest Hb _ IH]; [reflexivity |].
  cbn [utf8_decode map].
  destruct (byte_val b <? 128) eqn:E; [| bool_lia].
  rewrite IH. reflexivity.
Qed.

(** X19: a payload whose bytes are all below 0x80 is always reported as a
    string, the string of those bytes as code points; this includes the
    empty payload and every nested message whose bytes happen to be that
    small. *)
Theorem X19_ascii_payload_is_string
    (buffer : bytes) (pos length p1 : Z) :
  _decode_varint buffer pos = Ok (length, p1, (pos, p1)) ->
  Forall (fun b => byte_val b < 0x80) (slice buffer p1 (p1 + length)) ->
  decode_length_delimited buffer pos =
  Ok (Content_string (map byte_val (slice buffer p1 (p1 + length)))
        (buffer_to_pretty_hex (slice buffer p1 (p1 + length))),
      p1 + length).
Proof.
  intros Hv Hascii.
  unfold decode_length_delimited, decode_length_delimited_with, decode_utf8.
  rewrite Hv. cbn [bind]. cbv zeta.
  rewrite utf8_decode_ascii by exact Hascii. reflexivity.
Qed.

Lemma X19_ascii_payload_is_string_witness :
  (_decode_varint [x04; x0a; x02; x08; x01] 0 = Ok (4, 1, (0, 1)) /\
   Forall (fun b => byte_val b < 0x80)
     (slice [x04; x0a; x02; x08; x01] 1 (1 + 4))) /\
  decode_length_delimited [x04; x0a; x02; x08; x01] 0 =
  Ok (Content_string
        (map byte_val (slice [x04; x0a; x02; x08; x01] 1 (1 + 4)))
        (buffer_to_pretty_hex (slice [x04; x0a; x02; x08; x01] 1 (1 + 4))),
      1 + 4).
Proof.
  assert (H : Forall (fun b => byte_val b < 0x80)
                (slice [x04; x0a; x02; x08; x01] 1 (1 + 4))).
  { change (slice [x04; x0a; x02; x08; x01] 1 (1 + 4))
      with [x0a; x02; x08; x01].
    repeat constructor. }
  split; [split; [vm_compute; reflexivity | exact H] |].
  apply (X19_ascii_payload_is_string [x04; x0a; x02; x08; x01] 0 4 1);
    [vm_compute; reflexivity | exact H].
Defined.

(** X20: the "int" candidate of a fixed64 field is the little-endian number
    in the last 8 bytes of the field's span, that of a fixed32 field the
    little-endian number in its last 4 bytes. *)
Theorem X20_fixed_payload_is_little_endian
    (buffer : bytes) (pos pos' : Z) (f : field_info) :
  0 <= pos ->
  decode_field buffer pos = Ok (f, pos') ->
  (Type_ f = "fixed64"%string ->
   exists d,
     Content f =
     Content_candidates
       [Candidate "double" d;
        Candidate "int" (IntValue (le_to_Z (slice buffer (pos' - 8) pos')))]) /\
  (Type_ f = "fixed32"%string ->
   exists d,
     Content f =
     Content_candidates
       [Candidate "float" d;
        Candidate "int" (IntValue (le_to_Z (slice buffer (pos' - 4) pos')))]).
Proof.
  intros Hpos H. apply Type_of_record in H
    as (key & p0 & Hk & _ & -> & C).
  apply _decode_varint_Ok in Hk as (_ & Hp0 & _).
  destruct C as [C | [C | [C | C]]].
  - destruct C as (-> & _). split; discriminate.
  - destruct C as (-> & v & Hv & -> & ->). split; [| discriminate].
    intros _. unfold unpack_from_lt_Q in Hv. step_bind Hv.
    injection Hv as <-.
    apply unpack_from_bytes_inside in E as [Hin ->]; [| lia].
    replace (p0 + 8 - 8) with p0 by lia.
    rewrite (slice_inside buffer p0 8) by lia. eauto.
  - destruct C as (-> & _). split; discriminate.
  - destruct C as (-> & v & Hv & -> & ->). split; [discriminate |].
    intros _. unfold unpack_from_lt_I in Hv. step_bind Hv.
    injection Hv as <-.
    apply unpack_from_bytes_inside in E as [Hin ->]; [| lia].
    replace (p0 + 4 - 4) with p0 by lia.
    rewrite (slice_inside buffer p0 4) by lia. eauto.
Qed.

Lemma X20_fixed_payload_is_little_endian_witness :
  (0 <= 0 /\
   decode_field [x0d; x01; x02; x00; x00] 0 =
   Ok (FieldInfo (0, 5) 1 "fixed32" "0d"
         (Content_candidates
            [Candidate "float" (FloatValue (S754_finite false 513 (-149)));
             Candidate "int" (IntValue 513)]), 5)) /\
  ("fixed32"%string = "fixed64"%string ->
   exists d,
     Content_candidates
       [Candidate "float" (FloatValue (S754_finite false 513 (-149)));
        Candidate "int" (IntValue 513)] =
     Content_candidates
       [Candidate "double" d;
        Candidate "int"
          (IntValue (le_to_Z (slice [x0d; x01; x02; x00; x00] (5 - 8) 5)))]) /\
  ("fixed32"%string = "fixed32"%string ->
   exists d,
     Content_candidates
       [Candidate "float" (FloatValue (S754_finite false 513 (-149)));
        Candidate "int" (IntValue 513)] =
     Content_candidates
       [Candidate "float" d;
        Candidate "int"
          (IntValue (le_to_Z (slice [x0d; x01; x02; x00; x00] (5 - 4) 5)))]).
Proof.
  split; [split; [lia | vm_compute; reflexivity] |].
  apply (X20_fixed_payload_is_little_endian [x0d; x01; x02; x00; x00] 0 5
           (FieldInfo (0, 5) 1 "fixed32" "0d"
              (Content_candidates
                 [Candidate "float" (FloatValue (S754_finite false 513 (-149)));
                  Candidate "int" (IntValue 513)])));
    [lia | vm_compute; reflexivity].
Defined.

(** X21: [read_buffer] raises exactly when more bytes are asked for than
    are left, and what it raises is the [ValueError] of [_check_byte] with
    the two numbers, the length asked for and the bytes left. *)
Theorem X21_read_buffer_raises_when_short
    (self : BufferReader.t) (length : Z) (e : exn) :
  BufferReader.read_buffer self length = Raise e <->
  BufferReader.left_bytes self < length /\
  e = ValueError_bytes_left length (BufferReader.left_bytes self).
Proof.
  unfold BufferReader.read_buffer, BufferReader._check_byte.
  destruct (BufferReader.left_bytes self <? length) eqn:E; cbn [bind]; split.
  - intros [= <-]. split; [bool_lia | reflexivity].
  - intros [_ ->]. reflexivity.
  - discriminate.
  - intros [H _]. bool_lia.
Qed.

(** X22: bytes that follow a field do not change it: a field that decodes
    and ends inside the buffer decodes to the same record, with the same
    end, in every buffer that continues this one. *)
Theorem X22_field_is_stable_under_append
    (a b : bytes) (pos pos' : Z) (f : field_info) :
  0 <= pos ->
  decode_field a pos = Ok (f, pos') ->
  pos' <= len a ->
  decode_field (a ++ b) pos = Ok (f, pos').
Proof.
  exact (decode_field_with_app_l decode_protobuf a b pos pos' f).
Qed.

Lemma X22_field_is_stable_under_append_witness :
  (0 <= 0 /\
   decode_field [x08; x96; x01] 0 =
   Ok (FieldInfo (0, 3) 1 "varint" "08"
         (Content_candidates
            [Candidate "uint" (IntValue 150);
             Candidate "sint" (IntValue 75)]), 3) /\
   3 <= len [x08; x96; x01]) /\
  decode_field ([x08; x96; x01] ++ [xff; xff]) 0 =
  Ok (FieldInfo (0, 3) 1 "varint" "08"
        (Content_candidates
           [Candidate "uint" (IntValue 150);
            Candidate "sint" (IntValue 75)]), 3).
Proof.
  split; [repeat split; try lia; vm_compute; try reflexivity; discriminate |].
  apply (X22_field_is_stable_under_append [x08; x96; x01] [xff; xff] 0 3);
    [lia | vm_compute; reflexivity | vm_compute; discriminate].
Defined.
